(** * Page-range derivation and PDF slicing of [split_pdf_by_confidence]

    A shallow embedding of the endpoint [split_pdf_by_confidence] of
    [src/api.py] (lines 456-571): the collection of the high confidence
    pages, the derivation of the split ranges, the page-copy loop, the
    naming of the parts and the archive that bundles them.

    Python integers are unbounded, so page numbers are [Z].  [set(...)] is a
    [gset Z], [sorted(...)] is a merge sort of its elements, [range(a, b)] is
    [seqZ a (b - a)], [enumerate] is [imap], and [raise] is the left summand
    of a sum type.  A Python [str] is the [string] of the bytes of its UTF-8
    encoding: ASCII text is the text itself, and a character outside ASCII
    takes two to four bytes. *)

From Stdlib Require Import Ascii.
From stdpp Require Import base tactics option list list_numbers sorting
  gmap strings pretty.

Local Open Scope Z_scope.

(** ** Exceptions *)

(** The exceptions that can escape the library calls made inside the [try]
    block (lines 501-569); each carries the text that [str(e)] returns. *)
Inductive Exception :=
  | IndexError (msg : string)
  | TypeError (msg : string)
  | PdfReadError (msg : string)
  | UnicodeEncodeError (msg : string)
  | StructError (msg : string).

Definition str_exc (e : Exception) : string :=
  match e with
  | IndexError msg | TypeError msg | PdfReadError msg
  | UnicodeEncodeError msg | StructError msg => msg
  end.

(** [HTTPException(status_code=..., detail=...)]. *)
Record HTTPException := mkHTTPException {
  status_code : Z;
  detail : string
}.

(** A small error monad: [inl e] is [raise e]. *)
Definition bindE {E A B} (m : E + A) (k : A → E + B) : E + B :=
  match m with
  | inl e => inl e
  | inr a => k a
  end.

Notation "x ←! m ; k" := (bindE m (λ x, k))
  (at level 20, m at level 100, k at level 200, only parsing).

Fixpoint mapE {E A B} (f : A → E + B) (l : list A) : E + list B :=
  match l with
  | [] => inr []
  | a :: l' => b ←! f a; bs ←! mapE f l'; inr (b :: bs)
  end.

(** ** Range derivation (lines 498-523) *)

Module Ranges.

(** [sorted(set(high_confidence_pages))], line 499. *)
Definition sorted_set (high_confidence_pages : list Z) : list Z :=
  merge_sort (≤) (elements (list_to_set high_confidence_pages : gset Z)).

(** Lines 511-512: the leading range, present when the first high confidence
    page is after page 1. *)
Definition leading_range (first : Z) : list (Z * Z) :=
  if bool_decide (first > 1) then [(1, first - 1)] else [].

(** The body of the loop at lines 515-523 for index [i]. *)
Definition range_at (high_confidence_pages : list Z) (total_pages : Z)
    (i : nat) (high_page : Z) : Z * Z :=
  let start_page := high_page in
  let end_page :=
    if bool_decide (i + 1 < length high_confidence_pages)%nat
    then high_confidence_pages !!! (i + 1)%nat - 1
    else total_pages in
  (start_page, end_page).

(** Lines 508-523, on the sorted list of line 499.
    [high_confidence_pages[0]] raises on the empty list. *)
Definition split_ranges (high_confidence_pages : list Z) (total_pages : Z)
    : Exception + list (Z * Z) :=
  match high_confidence_pages !! 0%nat with
  | None => inl (IndexError "list index out of range")
  | Some first =>
      inr (leading_range first
             ++ imap (range_at high_confidence_pages total_pages)
                  high_confidence_pages)
  end.

(** Lines 499-523: from the collected pages to the ranges. *)
Definition derive_ranges (high_confidence_pages : list Z) (total_pages : Z)
    : Exception + list (Z * Z) :=
  split_ranges (sorted_set high_confidence_pages) total_pages.

End Ranges.

(** ** The classification result (lines 476-493) *)

(** The value stored under a segment's ["pages"] key: a list of page numbers,
    or some other JSON value. *)
Inductive pages_value :=
  | PagesList (l : list Z)
  | PagesNotList.

(** A segment of the result; [None] is an absent key. *)
Record Segment := mkSegment {
  confidence_category : option string;
  pages : option pages_value
}.

(** The result dict; [segments = None] is a dict without the ["segments"]
    key (the empty dict included). *)
Record Result := mkResult {
  segments : option (list Segment)
}.

(** Lines 489-493, the body of the loop over the segments. *)
Definition extend_with_segment (high_confidence_pages : list Z)
    (segment : Segment) : list Z :=
  if bool_decide (confidence_category segment = Some "high") then
    match default (PagesList []) (pages segment) with
    | PagesList l =>
        if bool_decide (0 < length l)%nat
        then high_confidence_pages ++ l
        else high_confidence_pages
    | PagesNotList => high_confidence_pages
    end
  else high_confidence_pages.

(** Lines 487-493. *)
Definition collect_high_confidence_pages (segs : list Segment) : list Z :=
  foldl extend_with_segment [] segs.

(** ** Jobs (lines 374-384) *)

Definition bytes := list Byte.byte.

(** What a dict holds under a key read with a default: nothing, [None], or a
    value. *)
Inductive py_field (A : Type) :=
  | Absent
  | PyNone
  | Value (a : A).
Arguments Absent {A}.
Arguments PyNone {A}.
Arguments Value {A} a.

(** The keys of a job that the endpoint reads.  [status], [result] and
    [original_file_content] are read with [job.get(key)], for which an absent
    key and a [None] value are the same [None]. *)
Record Job := mkJob {
  status : option string;
  result : option Result;
  original_file_content : option bytes;
  job_filename : py_field string
}.

(** ** Names (lines 539-541 and 558-560) *)

(** [s.rsplit('.', 1)[0]] when ['.' in s]: the text before the last dot;
    [None] when [s] has no dot. *)
Fixpoint rsplit_dot_head (s : string) : option string :=
  match s with
  | EmptyString => None
  | String c s' =>
      match rsplit_dot_head s' with
      | Some head => Some (String c head)
      | None => if bool_decide (c = "."%char) then Some EmptyString else None
      end
  end.

(** Line 540. *)
Definition base_name (original_filename : string) : string :=
  default original_filename (rsplit_dot_head original_filename).

(** Line 541, with [str] of an integer as [pretty]. *)
Definition split_filename (original_filename : string) (idx start end_ : Z)
    : string :=
  base_name original_filename +:+ "_part_" +:+ pretty idx +:+ "_pages_"
    +:+ pretty start +:+ "-" +:+ pretty end_ +:+ ".pdf".

(** Line 546. *)
Definition pages_label (start end_ : Z) : string :=
  pretty start +:+ "-" +:+ pretty end_.

(** Line 560. *)
Definition zip_filename (original_filename : string) : string :=
  base_name original_filename +:+ "_split_pdfs.zip".

(** [job.get("filename", "document.pdf")] followed by the test
    ['.' in original_filename], which raises on [None]. *)
Definition get_original_filename (f : py_field string) : Exception + string :=
  match f with
  | Absent => inr "document.pdf"
  | PyNone => inl (TypeError "argument of type 'NoneType' is not iterable")
  | Value s => inr s
  end.

(** ** Slicing (lines 525-547) *)

(** [range(a, b)]. *)
Definition py_range (a b : Z) : list Z := seqZ a (b - a).

(** [enumerate(l, n)]. *)
Definition enumerate {A} (l : list A) (n : Z) : list (Z * A) :=
  imap (λ i x, (n + Z.of_nat i, x)) l.

(** The dict appended to [split_pdfs] at lines 543-547; [label] is the value
    under the key ["pages"]. *)
Record SplitPdf := mkSplitPdf {
  filename : string;
  content : bytes;
  label : string
}.

(** The response of line 562: the entries written into the archive, in the
    order of the [writestr] calls, and the file name of the
    Content-Disposition header. *)
Record StreamingResponse := mkStreamingResponse {
  zip_entries : list (string * bytes);
  attachment : string
}.

(** ** The archive and the response header (lines 549-568) *)

Definition NUL : ascii := Ascii.zero.

(** [ZipInfo.__init__] of [zipfile]: the name of an entry ends before its
    first NUL character. *)
Fixpoint cut_at_nul (s : string) : string :=
  match s with
  | EmptyString => EmptyString
  | String c s' =>
      if bool_decide (c = NUL) then EmptyString else String c (cut_at_nul s')
  end.

(** [zip_file.writestr(name, data)], line 553, as [zipfile] of Python 3.11
    has it: the entry is stored under the name cut at its first NUL;
    [zinfo.filename[-1]] raises on an empty name, and the length of the
    encoded name is packed as an unsigned short in the file header. *)
Definition writestr (name : string) (data : bytes)
    : Exception + (string * bytes) :=
  let filename := cut_at_nul name in
  if bool_decide (filename = EmptyString)
  then inl (IndexError "string index out of range")
  else if bool_decide (Z.of_nat (String.length filename) ≤ 65535)
  then inr (filename, data)
  else inl (StructError "ushort format requires 0 <= number <= 65535").

(** The six low bits of a UTF-8 continuation byte. *)
Definition continuation (c : ascii) : option N :=
  let b := N_of_ascii c in
  if ((128 <=? b) && (b <? 192))%N then Some (b - 128)%N else None.

(** The code points of a text, decoded from its UTF-8 bytes; a byte that
    starts no complete sequence (which no Python [str] has) counts as the
    code point of its value. *)
Fixpoint code_points (s : string) : list N :=
  match s with
  | EmptyString => []
  | String c s1 =>
      let b := N_of_ascii c in
      let single := b :: code_points s1 in
      match s1 with
      | String c1 s2 =>
          match continuation c1 with
          | Some x1 =>
              if ((192 <=? b) && (b <? 224))%N
              then ((b - 192) * 64 + x1)%N :: code_points s2
              else
                match s2 with
                | String c2 s3 =>
                    match continuation c2 with
                    | Some x2 =>
                        if ((224 <=? b) && (b <? 240))%N
                        then (((b - 224) * 64 + x1) * 64 + x2)%N
                               :: code_points s3
                        else
                          match s3 with
                          | String c3 s4 =>
                              match continuation c3 with
                              | Some x3 =>
                                  if ((240 <=? b) && (b <? 248))%N
                                  then ((((b - 240) * 64 + x1) * 64 + x2) * 64
                                        + x3)%N :: code_points s4
                                  else single
                              | None => single
                              end
                          | EmptyString => single
                          end
                    | None => single
                    end
                | EmptyString => single
                end
          | None => single
          end
      | EmptyString => single
      end
  end.

Definition hex_digit (d : N) : ascii :=
  match d with
  | 0 => "0" | 1 => "1" | 2 => "2" | 3 => "3" | 4 => "4" | 5 => "5"
  | 6 => "6" | 7 => "7" | 8 => "8" | 9 => "9" | 10 => "a" | 11 => "b"
  | 12 => "c" | 13 => "d" | 14 => "e" | _ => "f"
  end%N%char.

(** [n] in [width] hexadecimal digits, before [acc]. *)
Fixpoint hex (width : nat) (n : N) (acc : string) : string :=
  match width with
  | O => acc
  | S w => hex w (n / 16)%N (String (hex_digit (n mod 16)%N) acc)
  end.

(** How the message of a [UnicodeEncodeError] shows a character above
    [0xff]. *)
Definition escape (badchar : N) : string :=
  if (badchar <=? 65535)%N
  then "\u" +:+ hex 4 badchar EmptyString
  else "\U" +:+ hex 8 badchar EmptyString.

(** The number of leading code points that latin-1 cannot hold. *)
Fixpoint run_length (cps : list N) : Z :=
  match cps with
  | cp :: rest => if (256 <=? cp)%N then 1 + run_length rest else 0
  | [] => 0
  end.

(** The first run of code points that latin-1 cannot hold: where it starts,
    where it ends, and its first code point. *)
Fixpoint find_unencodable (cps : list N) (position : Z) : option (Z * Z * N) :=
  match cps with
  | [] => None
  | cp :: rest =>
      if (256 <=? cp)%N
      then Some (position, position + 1 + run_length rest, cp)
      else find_unencodable rest (position + 1)
  end.

(** [text.encode("latin-1")], which the response applies to the value of
    every header: the code points as bytes, or the error of the codec. *)
Definition encode_latin1 (text : string) : Exception + list N :=
  match find_unencodable (code_points text) 0 with
  | None => inr (code_points text)
  | Some (start, end_, badchar) =>
      inl (UnicodeEncodeError
             (if bool_decide (end_ = start + 1)
              then "'latin-1' codec can't encode character '"
                     +:+ escape badchar +:+ "' in position " +:+ pretty start
                     +:+ ": ordinal not in range(256)"
              else "'latin-1' codec can't encode characters in position "
                     +:+ pretty start +:+ "-" +:+ pretty (end_ - 1)
                     +:+ ": ordinal not in range(256)"))
  end.

(** The value of the Content-Disposition header, line 566. *)
Definition content_disposition (original_filename : string) : string :=
  "attachment; filename=" +:+ zip_filename original_filename.

Section Slicer.
Context {Page : Type}.

(** [PdfReader(io.BytesIO(content)).pages]: the pages of the document, or
    the exception the reader raises on a file it cannot read. *)
Variable PdfReader : bytes → Exception + list Page.

(** [writer.write(pdf_buffer); pdf_buffer.getvalue()] for a writer that has
    been given these pages. *)
Variable PdfWriter_write : list Page → bytes.

(** [pdf_reader.pages[index]]: the page list of pypdf counts a negative
    index from the end and raises outside the document. *)
Definition pages_getitem (pdf_pages : list Page) (index : Z)
    : Exception + Page :=
  let len_self := Z.of_nat (length pdf_pages) in
  let index := if bool_decide (index < 0) then len_self + index else index in
  if bool_decide (index < 0 ∨ index >= len_self)
  then inl (IndexError "Sequence index out of range")
  else
    match pdf_pages !! Z.to_nat index with
    | Some page => inr page
    | None => inl (IndexError "Sequence index out of range")
    end.

(** Lines 528-532: the pages added to the writer of one range. *)
Definition copy_pages (pdf_pages : list Page) (total_pages start end_ : Z)
    : Exception + list Page :=
  mapE (pages_getitem pdf_pages) (py_range (start - 1) (Z.min end_ total_pages)).

(** Lines 528-547: the body of the loop over the ranges. *)
Definition split_one (pdf_pages : list Page) (total_pages : Z)
    (fname : py_field string) (item : Z * (Z * Z)) : Exception + SplitPdf :=
  let '(idx, (start, end_)) := item in
  written ←! copy_pages pdf_pages total_pages start end_;
  original_filename ←! get_original_filename fname;
  inr {| filename := split_filename original_filename idx start end_;
         content := PdfWriter_write written;
         label := pages_label start end_ |}.

(** Lines 526-547. *)
Definition slice (pdf_pages : list Page) (total_pages : Z)
    (fname : py_field string) (split_ranges : list (Z * Z))
    : Exception + list SplitPdf :=
  mapE (split_one pdf_pages total_pages fname) (enumerate split_ranges 1).

(** Lines 549-553: the entries of the archive, or what the first refused
    [writestr] raises. *)
Definition bundle (split_pdfs : list SplitPdf)
    : Exception + list (string * bytes) :=
  mapE (λ split_pdf, writestr (filename split_pdf) (content split_pdf))
    split_pdfs.

(** Lines 502-568, the body of the [try] block, on the sorted pages of
    line 499.  [StreamingResponse(..., headers=...)] of line 562 encodes the
    header value as latin-1 and raises when it cannot. *)
Definition try_split (content_ : bytes) (fname : py_field string)
    (high_confidence_pages : list Z) : Exception + StreamingResponse :=
  pdf_pages ←! PdfReader content_;
  let total_pages := Z.of_nat (length pdf_pages) in
  split_ranges ←! Ranges.split_ranges high_confidence_pages total_pages;
  split_pdfs ←! slice pdf_pages total_pages fname split_ranges;
  entries ←! bundle split_pdfs;
  original_filename ←! get_original_filename fname;
  raw_header ←! encode_latin1 (content_disposition original_filename);
  inr {| zip_entries := entries;
         attachment := content_disposition original_filename |}.

(** Line 496. *)
Definition no_high_confidence_pages : HTTPException :=
  mkHTTPException 400 "No high confidence pages found in the result".

(** Lines 485-571: from the segments and the stored file to the response.
    The [except] clause of line 570 turns every exception of the [try]
    block into a 500. *)
Definition split_segments (segs : list Segment) (content_ : bytes)
    (fname : py_field string) : HTTPException + StreamingResponse :=
  let high_confidence_pages := collect_high_confidence_pages segs in
  if bool_decide (high_confidence_pages = []) then inl no_high_confidence_pages
  else
    let high_confidence_pages := Ranges.sorted_set high_confidence_pages in
    match try_split content_ fname high_confidence_pages with
    | inr response => inr response
    | inl e =>
        inl (mkHTTPException 500 ("Error splitting PDF: " +:+ str_exc e))
    end.

(** Line 478. *)
Definition result_not_available : HTTPException :=
  mkHTTPException 400 "Job result not available or invalid".

(** Lines 466-571.  The endpoint only reads [jobs_storage]. *)
Definition split_pdf_by_confidence (jobs_storage : gmap string Job)
    (job_id : string) : HTTPException + StreamingResponse :=
  match jobs_storage !! job_id with
  | None => inl (mkHTTPException 404 "Job not found")
  | Some job =>
      if bool_decide (status job ≠ Some "completed") then
        inl (mkHTTPException 400
               ("Job is not completed. Current status: "
                  +:+ default "None" (status job)))
      else
        match result job with
        | Some {| segments := Some segs |} =>
            match original_file_content job with
            | Some (b :: content_) => split_segments segs (b :: content_) (job_filename job)
            | _ =>
                inl (mkHTTPException 400
                       "Original file not available. Please upload file again or use file_id method.")
            end
        | _ => inl result_not_available
        end
  end.

End Slicer.

(** ** A document format to run the model on

    One byte per page: the reader returns the bytes as the pages and the
    writer stores the pages as the bytes. *)
Module OneBytePages.
Definition PdfReader (content_ : bytes) : Exception + list Byte.byte :=
  inr content_.
Definition PdfWriter_write (written : list Byte.byte) : bytes := written.
Definition ten_pages : bytes :=
  [Byte.x01; Byte.x02; Byte.x03; Byte.x04; Byte.x05;
   Byte.x06; Byte.x07; Byte.x08; Byte.x09; Byte.x0a].
End OneBytePages.

(** ** Predicates and closed forms used in the statements *)

(** The loop of lines 515-523 by recursion on the sorted pages: each page
    starts a range that ends just before the next page, the last one at
    [total_pages]. *)
Fixpoint ranges_from (high_confidence_pages : list Z) (total_pages : Z)
    : list (Z * Z) :=
  match high_confidence_pages with
  | [] => []
  | high_page :: rest =>
      (high_page,
       match rest with
       | [] => total_pages
       | next :: _ => next - 1
       end) :: ranges_from rest total_pages
  end.

(** [chain a rs b]: the ranges [rs] are non-empty intervals laid end to end
    from [a] to [b]. *)
Fixpoint chain (a : Z) (rs : list (Z * Z)) (b : Z) : Prop :=
  match rs with
  | [] => a = b + 1
  | (start, end_) :: rs' => start = a ∧ start ≤ end_ ∧ chain (end_ + 1) rs' b
  end.

(** A valid sequence of ranges for a document of [total_pages] pages. *)
Record valid_ranges (total_pages : Z) (rs : list (Z * Z)) : Prop := {
  valid_sorted : StronglySorted (λ r1 r2, r1.1 < r2.1) rs;
  valid_start_le_end : Forall (λ r, r.1 ≤ r.2) rs;
  valid_contiguous :
    ∀ i r1 r2, rs !! i = Some r1 → rs !! S i = Some r2 → r2.1 = r1.2 + 1;
  valid_no_overlap :
    ∀ i j r1 r2 p, rs !! i = Some r1 → rs !! j = Some r2 →
      r1.1 ≤ p ≤ r1.2 → r2.1 ≤ p ≤ r2.2 → i = j;
  valid_cover :
    ∀ p, 1 ≤ p ≤ total_pages ↔ ∃ r, r ∈ rs ∧ r.1 ≤ p ≤ r.2
}.

(** The number of pages of a range. *)
Definition range_size (r : Z * Z) : Z := r.2 - r.1 + 1.

(** The pages [start] to [end_] of the document, numbered from 1, as far as
    the document has them. *)
Definition page_span {Page} (pdf_pages : list Page) (start end_ : Z)
    : list Page :=
  drop (Z.to_nat (start - 1)) (take (Z.to_nat end_) pdf_pages).

(** The part written for the range [r] at position [i], counted from 0. *)
Definition part {Page} (PdfWriter_write : list Page → bytes)
    (pdf_pages : list Page) (original_filename : string) (i : nat)
    (r : Z * Z) : SplitPdf :=
  {| filename := split_filename original_filename (1 + Z.of_nat i) r.1 r.2;
     content := PdfWriter_write (page_span pdf_pages r.1 r.2);
     label := pages_label r.1 r.2 |}.

(** The text of the file name from its last dot on; empty without a dot. *)
Definition original_extension (original_filename : string) : string :=
  let n := String.length (base_name original_filename) in
  String.substring n (String.length original_filename - n) original_filename.

(** The name of a part with the extension of the source file. *)
Definition part_name_with_extension (original_filename : string)
    (idx start end_ : Z) : string :=
  base_name original_filename +:+ "_part_" +:+ pretty idx +:+ "_pages_"
    +:+ pretty start +:+ "-" +:+ pretty end_
    +:+ original_extension original_filename.

(** The names handed to [writestr] for the parts of these ranges, in the
    order of the ranges. *)
Definition part_names (original_filename : string) (ranges : list (Z * Z))
    : list string :=
  imap (λ i r, split_filename original_filename (1 + Z.of_nat i) r.1 r.2)
    ranges.

(** The names that [writestr] stores an entry for: what is left of the name
    before its first NUL is not empty and has at most 65535 bytes. *)
Definition archive_writes (name : string) : Prop :=
  cut_at_nul name ≠ EmptyString
  ∧ Z.of_nat (String.length (cut_at_nul name)) ≤ 65535.

(** The entry of the archive for the range [r] at position [i], counted
    from 0. *)
Definition archive_entry {Page} (PdfWriter_write : list Page → bytes)
    (pdf_pages : list Page) (original_filename : string) (i : nat)
    (r : Z * Z) : string * bytes :=
  (cut_at_nul (split_filename original_filename (1 + Z.of_nat i) r.1 r.2),
   PdfWriter_write (page_span pdf_pages r.1 r.2)).

(** A completed job of six pages whose result has a segment with page 3 and
    a high confidence segment without the ["pages"] key. *)
Definition job_with_segment_without_pages : Job :=
  {| status := Some "completed";
     result :=
       Some {| segments :=
                 Some [mkSegment (Some "high") (Some (PagesList [3]));
                       mkSegment (Some "high") None] |};
     original_file_content :=
       Some [Byte.x01; Byte.x02; Byte.x03; Byte.x04; Byte.x05; Byte.x06];
     job_filename := Value "scan.pdf" |}.

(** ** Stored jobs (lines 374-384) *)

(** A job dict of [jobs_storage] with all its keys; [split_keys] holds the
    four keys that [split_pdf_by_confidence] reads.  [llamaindex_job_id] is
    [split_job.get("id")], [None] when the remote job has no id. *)
Record StoredJob := mkStoredJob {
  job_id_key : string;
  llamaindex_job_id : option string;
  created_at : string;
  file_id : option string;
  error_message : option string;
  split_keys : Job
}.

(** The uploaded file: [file.filename] and the bytes that [file.read()]
    returns. *)
Record UploadFile := mkUploadFile {
  upload_filename : option string;
  upload_content : bytes
}.

(** The JSON of the split job that the remote service created:
    [split_job.get("id")] and the value under ["status"]. *)
Record SplitJob := mkSplitJob {
  split_job_id : option string;
  split_job_status : py_field string
}.

Global Instance py_field_eq_dec {A} `{EqDecision A} : EqDecision (py_field A).
Proof. solve_decision. Defined.

(** [d.get(key, default)] for a key that holds a string or [None]. *)
Definition get_default (field : py_field string) (default_ : option string)
    : option string :=
  match field with
  | Absent => default_
  | PyNone => None
  | Value s => Some s
  end.

(** Lines 104-111 and 373-384 of [create_job]: what is stored once the
    remote split job [split_job] has been created; [job_id] is the fresh
    [uuid4] and [now] is [datetime.now().isoformat()]. *)
Definition store_job (jobs_storage : gmap string StoredJob)
    (job_id now : string) (file : option UploadFile)
    (file_id_from_upload : string) (split_job : SplitJob)
    : gmap string StoredJob :=
  let original_file_content := upload_content <$> file in
  <[job_id :=
      {| job_id_key := job_id;
         llamaindex_job_id := split_job_id split_job;
         created_at := now;
         file_id :=
           if bool_decide (file_id_from_upload ≠ "direct_upload")
           then Some file_id_from_upload else None;
         error_message := None;
         split_keys :=
           {| status := get_default (split_job_status split_job) (Some "pending");
              result := None;
              original_file_content := original_file_content;
              job_filename :=
                match file with
                | Some f =>
                    match upload_filename f with
                    | Some s => Value s
                    | None => PyNone
                    end
                | None => PyNone
                end |} |}]> jobs_storage.

(** ** Job details (lines 399-453) *)

(** The JSON that the remote service returns for a job: the value under
    ["status"], the value under ["result"] when it is truthy (a non-empty
    dict), and the value under ["error_message"]. *)
Record RemoteJob := mkRemoteJob {
  remote_status : py_field string;
  remote_result : option Result;
  remote_error_message : py_field string
}.

(** The response model of lines 46-51. *)
Record JobDetails := mkJobDetails {
  details_job_id : string;
  details_status : string;
  details_created_at : string;
  details_result : option Result;
  details_error_message : option string
}.

(** What [get_job_details] raises: the [HTTPException] of line 409, or the
    validation error of [JobDetails] for a status that is not a string. *)
Inductive Raised :=
  | RaisedHTTP (e : HTTPException)
  | RaisedValidationError.

(** Lines 430-436, on the job dict. *)
Definition refresh_job (llamaindex_job : RemoteJob) (stored : StoredJob)
    : StoredJob :=
  let keys := split_keys stored in
  let status' :=
    get_default (remote_status llamaindex_job) (status keys) in
  if bool_decide (remote_status llamaindex_job = Value "completed")
     && bool_decide (is_Some (remote_result llamaindex_job))
  then
    {| job_id_key := job_id_key stored;
       llamaindex_job_id := llamaindex_job_id stored;
       created_at := created_at stored;
       file_id := file_id stored;
       error_message := error_message stored;
       split_keys :=
         {| status := status';
            result := remote_result llamaindex_job;
            original_file_content := original_file_content keys;
            job_filename := job_filename keys |} |}
  else
    {| job_id_key := job_id_key stored;
       llamaindex_job_id := llamaindex_job_id stored;
       created_at := created_at stored;
       file_id := file_id stored;
       error_message :=
         if bool_decide (remote_status llamaindex_job = Value "failed")
         then get_default (remote_error_message llamaindex_job)
                (Some "Job failed")
         else error_message stored;
       split_keys :=
         {| status := status';
            result := result keys;
            original_file_content := original_file_content keys;
            job_filename := job_filename keys |} |}.

(** Lines 420-445: the job dict after the attempt to fetch the remote job.
    [fetch api_key id] is the JSON of the GET request of line 423, [None]
    when the request, [raise_for_status] or the decoding raises. *)
Definition fetch_latest (fetch : string → string → option RemoteJob)
    (api_key : string) (stored : StoredJob) : StoredJob :=
  match llamaindex_job_id stored with
  | Some (String c s) =>
      match fetch api_key (String c s) with
      | Some llamaindex_job => refresh_job llamaindex_job stored
      | None => stored
      end
  | _ => stored
  end.

(** Lines 447-453: [status] is declared [str], so a [None] status is
    refused. *)
Definition job_details (stored : StoredJob) : Raised + JobDetails :=
  match status (split_keys stored) with
  | Some s =>
      inr {| details_job_id := job_id_key stored;
             details_status := s;
             details_created_at := created_at stored;
             details_result := result (split_keys stored);
             details_error_message := error_message stored |}
  | None => inl RaisedValidationError
  end.

(** Lines 408-453: the storage after the call, and what the call returns or
    raises.  The job dict is updated in place, so the update is kept when
    the response model refuses the job. *)
Definition get_job_details (fetch : string → string → option RemoteJob)
    (api_key : string) (jobs_storage : gmap string StoredJob)
    (job_id : string) : gmap string StoredJob * (Raised + JobDetails) :=
  match jobs_storage !! job_id with
  | None =>
      (jobs_storage, inl (RaisedHTTP (mkHTTPException 404 "Job not found")))
  | Some stored =>
      let stored' := fetch_latest fetch api_key stored in
      (<[job_id := stored']> jobs_storage, job_details stored')
  end.

(** The storage as [split_pdf_by_confidence] reads it. *)
Definition split_storage (jobs_storage : gmap string StoredJob)
    : gmap string Job :=
  split_keys <$> jobs_storage.

(** A sequence of calls of [get_job_details], each with the answers of the
    remote service at that time, the API key and the job asked for. *)
Definition poll_all
    (calls : list ((string → string → option RemoteJob) * string * string))
    (jobs_storage : gmap string StoredJob) : gmap string StoredJob :=
  foldl (λ st call, (get_job_details call.1.1 call.1.2 st call.2).1)
    jobs_storage calls.

(** ** Sorting and deduplication *)

Section sorted_set.
Implicit Types l : list Z.

Lemma StronglySorted_le_NoDup_lt l :
  StronglySorted Z.le l → NoDup l → StronglySorted Z.lt l.
Proof.
  induction 1 as [|x l Hl IH Hx]; intros Hnd; [constructor|].
  apply NoDup_cons in Hnd as [Hnotin Hnd].
  constructor; [by apply IH|].
  rewrite Forall_forall in Hx |- *. intros y Hy.
  assert (x ≠ y) by (intros ->; done).
  specialize (Hx y Hy). lia.
Qed.

Lemma StronglySorted_lt_NoDup l : StronglySorted Z.lt l → NoDup l.
Proof.
  induction 1 as [|x l Hl IH Hx]; [constructor|].
  constructor; [|done]. rewrite Forall_forall in Hx.
  intros Hin. specialize (Hx x Hin). lia.
Qed.

Lemma elem_of_sorted_set l x : x ∈ Ranges.sorted_set l ↔ x ∈ l.
Proof.
  unfold Ranges.sorted_set.
  rewrite merge_sort_Permutation, elem_of_elements.
  apply elem_of_list_to_set.
Qed.

Lemma sorted_set_sorted l : StronglySorted Z.lt (Ranges.sorted_set l).
Proof.
  apply StronglySorted_le_NoDup_lt.
  - apply (StronglySorted_merge_sort _).
  - unfold Ranges.sorted_set. rewrite merge_sort_Permutation.
    apply NoDup_elements.
Qed.

Lemma sorted_set_nil l : Ranges.sorted_set l = [] ↔ l = [].
Proof.
  split; [|by intros ->].
  intros Hnil. destruct l as [|x l]; [done|].
  assert (x ∈ Ranges.sorted_set (x :: l)) as Hx
    by (apply elem_of_sorted_set; left).
  rewrite Hnil in Hx. by apply elem_of_nil in Hx.
Qed.

Lemma sorted_set_Forall (P : Z → Prop) l :
  Forall P l → Forall P (Ranges.sorted_set l).
Proof.
  rewrite !Forall_forall. intros H x Hx. by apply H, elem_of_sorted_set.
Qed.

End sorted_set.

(** ** The loop over the pages is [ranges_from] *)

Lemma imap_range_at_app pre hs total_pages :
  imap (λ i, Ranges.range_at (pre ++ hs) total_pages (length pre + i)) hs
  = ranges_from hs total_pages.
Proof.
  revert pre. induction hs as [|h tl IH]; intros pre; [done|].
  rewrite imap_cons. cbn [ranges_from]. f_equal.
  - unfold Ranges.range_at. f_equal.
    rewrite length_app. cbn [length].
    destruct tl as [|next tl'].
    + rewrite bool_decide_eq_false_2 by (cbn; lia). done.
    + rewrite bool_decide_eq_true_2 by (cbn; lia).
      replace (length pre + 0 + 1)%nat with (length (pre ++ [h]) + 0)%nat
        by (rewrite length_app; cbn; lia).
      replace (pre ++ h :: next :: tl') with ((pre ++ [h]) ++ next :: tl')
        by (by rewrite <-(assoc_L (++))).
      rewrite lookup_total_app_r by lia.
      by replace (length (pre ++ [h]) + 0 - length (pre ++ [h]))%nat with 0%nat by lia.
  - rewrite <-(IH (pre ++ [h])). apply imap_ext. intros i x _. cbn.
    replace ((pre ++ [h]) ++ tl) with (pre ++ h :: tl)
      by (by rewrite <-(assoc_L (++))).
    f_equal. rewrite length_app. cbn. lia.
Qed.

Lemma split_ranges_cons first rest total_pages :
  Ranges.split_ranges (first :: rest) total_pages
  = inr (Ranges.leading_range first
           ++ ranges_from (first :: rest) total_pages).
Proof.
  unfold Ranges.split_ranges. cbn [lookup list_lookup]. do 2 f_equal.
  apply (imap_range_at_app [] (first :: rest) total_pages).
Qed.

(** The derivation returns ranges exactly when a page has been collected. *)
Lemma derive_ranges_inr (high_confidence_pages : list Z) total_pages :
  high_confidence_pages ≠ [] →
  ∃ first rest,
    Ranges.sorted_set high_confidence_pages = first :: rest
    ∧ Ranges.derive_ranges high_confidence_pages total_pages
      = inr (Ranges.leading_range first
               ++ ranges_from (first :: rest) total_pages).
Proof.
  intros Hne. unfold Ranges.derive_ranges.
  destruct (Ranges.sorted_set high_confidence_pages) as [|first rest] eqn:Hs.
  { exfalso. by apply Hne, sorted_set_nil. }
  exists first, rest. split; [done|]. apply split_ranges_cons.
Qed.

Lemma ranges_from_starts hs total_pages : (ranges_from hs total_pages).*1 = hs.
Proof. induction hs as [|h tl IH]; [done|]. cbn. by rewrite IH. Qed.

Lemma leading_ranges_from_starts first rest total_pages :
  Forall (λ p, 1 ≤ p) (first :: rest) →
  Forall (λ r, 1 ≤ r.1)
    (Ranges.leading_range first ++ ranges_from (first :: rest) total_pages).
Proof.
  intros Hb. apply Forall_app. split.
  - unfold Ranges.leading_range.
    case_bool_decide; [|constructor].
    constructor; [cbn; lia|constructor].
  - apply (Forall_fmap fst (λ p, 1 ≤ p)). by rewrite ranges_from_starts.
Qed.
(** ** Chains of ranges *)

Section chain.
Implicit Types rs : list (Z * Z).

Lemma chain_bounds a rs b :
  chain a rs b →
  a ≤ b + 1 ∧ Forall (λ r, a ≤ r.1 ∧ r.1 ≤ r.2 ∧ r.2 ≤ b) rs.
Proof.
  revert a. induction rs as [|[s e] rs IH]; intros a; cbn.
  - intros ->. split; [lia|constructor].
  - intros (-> & Hle & Hc). destruct (IH _ Hc) as [Hb Hall].
    split; [lia|]. constructor; [cbn; lia|].
    eapply Forall_impl; [exact Hall|]. cbn. lia.
Qed.

Lemma chain_separated a rs b :
  chain a rs b → StronglySorted (λ r1 r2, r1.2 < r2.1) rs.
Proof.
  revert a. induction rs as [|[s e] rs IH]; intros a; cbn; [constructor|].
  intros (-> & Hle & Hc). constructor; [by eapply IH|].
  destruct (chain_bounds _ _ _ Hc) as [_ Hall].
  eapply Forall_impl; [exact Hall|]. cbn. lia.
Qed.

Lemma chain_sorted a rs b :
  chain a rs b → StronglySorted (λ r1 r2, r1.1 < r2.1) rs.
Proof.
  revert a. induction rs as [|[s e] rs IH]; intros a; cbn; [constructor|].
  intros (-> & Hle & Hc). constructor; [by eapply IH|].
  destruct (chain_bounds _ _ _ Hc) as [_ Hall].
  eapply Forall_impl; [exact Hall|]. cbn. lia.
Qed.

Lemma chain_contiguous a rs b i r1 r2 :
  chain a rs b → rs !! i = Some r1 → rs !! S i = Some r2 → r2.1 = r1.2 + 1.
Proof.
  revert a i. induction rs as [|[s e] rs IH]; intros a i; [done|].
  cbn [chain]. intros (-> & Hle & Hc) H1 H2.
  destruct i as [|i]; [|by eapply IH].
  cbn in H1, H2. injection H1 as <-.
  destruct rs as [|[s' e'] rs']; [done|].
  cbn in H2. injection H2 as <-. cbn in Hc. cbn. lia.
Qed.

Lemma chain_cover a rs b p :
  chain a rs b → (a ≤ p ≤ b ↔ ∃ r, r ∈ rs ∧ r.1 ≤ p ≤ r.2).
Proof.
  revert a. induction rs as [|[s e] rs IH]; intros a; cbn [chain].
  - intros ->. split; [lia|]. intros (r & Hr & _). by apply elem_of_nil in Hr.
  - intros (-> & Hle & Hc). specialize (IH _ Hc).
    destruct (chain_bounds _ _ _ Hc) as [Hb _]. split.
    + intros Hp. destruct (decide (p ≤ e)) as [Hpe|Hpe].
      * exists (a, e). split; [left|cbn; lia].
      * destruct (proj1 IH) as (r & Hr & Hin); [lia|].
        exists r. split; [by right|done].
    + intros (r & Hr & Hin). apply elem_of_cons in Hr as [->|Hr].
      * cbn in Hin. lia.
      * assert (e + 1 ≤ p ≤ b) by (apply IH; eauto). lia.
Qed.

Lemma chain_app a rs1 m rs2 b :
  chain a rs1 m → chain (m + 1) rs2 b → chain a (rs1 ++ rs2) b.
Proof.
  revert a. induction rs1 as [|[s e] rs1 IH]; intros a; cbn.
  - by intros ->.
  - intros (-> & Hle & Hc) H2. eauto.
Qed.

Lemma StronglySorted_lookup_lt {A} (R : relation A) (l : list A) i j x y :
  StronglySorted R l → l !! i = Some x → l !! j = Some y →
  (i < j)%nat → R x y.
Proof.
  intros Hl. revert i j. induction Hl as [|z l Hl IH Hz]; intros i j; [done|].
  intros Hi Hj Hlt. destruct j as [|j]; [lia|]. cbn in Hj.
  destruct i as [|i].
  - cbn in Hi. injection Hi as ->.
    rewrite Forall_forall in Hz. apply Hz. by eapply list_elem_of_lookup_2.
  - cbn in Hi. apply (IH i j); [done..|lia].
Qed.

Lemma chain_no_overlap a rs b i j r1 r2 p :
  chain a rs b → rs !! i = Some r1 → rs !! j = Some r2 →
  r1.1 ≤ p ≤ r1.2 → r2.1 ≤ p ≤ r2.2 → i = j.
Proof.
  intros Hc H1 H2 Hp1 Hp2. apply chain_separated in Hc.
  destruct (Nat.lt_trichotomy i j) as [Hlt|[->|Hlt]]; [|done|].
  - pose proof (StronglySorted_lookup_lt _ _ _ _ _ _ Hc H1 H2 Hlt) as Hsep.
    cbn in Hsep. lia.
  - pose proof (StronglySorted_lookup_lt _ _ _ _ _ _ Hc H2 H1 Hlt) as Hsep.
    cbn in Hsep. lia.
Qed.

Lemma chain_valid rs total_pages :
  chain 1 rs total_pages → valid_ranges total_pages rs.
Proof.
  intros Hc. split.
  - by eapply chain_sorted.
  - destruct (chain_bounds _ _ _ Hc) as [_ Hall].
    eapply Forall_impl; [exact Hall|]. cbn. lia.
  - intros i r1 r2. by eapply chain_contiguous.
  - intros i j r1 r2 p. by eapply chain_no_overlap.
  - intros p. by apply chain_cover.
Qed.

(** The ranges that start at the sorted pages, laid end to end. *)
Lemma chain_ranges_from h tl total_pages :
  StronglySorted Z.lt (h :: tl) →
  Forall (λ p, p ≤ total_pages) (h :: tl) →
  chain h (ranges_from (h :: tl) total_pages) total_pages.
Proof.
  revert h. induction tl as [|next tl IH]; intros h Hs Hb.
  - cbn. apply Forall_cons in Hb as [Hh _]. lia.
  - apply StronglySorted_cons in Hs as [Hh Hs].
    apply Forall_cons in Hh as [Hhn _].
    apply Forall_cons in Hb as [_ Hb].
    specialize (IH next Hs Hb).
    change (ranges_from (h :: next :: tl) total_pages)
      with ((h, next - 1) :: ranges_from (next :: tl) total_pages).
    cbn [chain]. split_and!; [done|lia|].
    by replace (next - 1 + 1) with next by lia.
Qed.

(** Lines 508-523 on sorted pages within the document. *)
Lemma chain_leading_ranges_from first rest total_pages :
  StronglySorted Z.lt (first :: rest) →
  Forall (λ p, 1 ≤ p ≤ total_pages) (first :: rest) →
  chain 1
    (Ranges.leading_range first ++ ranges_from (first :: rest) total_pages)
    total_pages.
Proof.
  intros Hs Hb.
  assert (chain first (ranges_from (first :: rest) total_pages) total_pages)
    as Hc.
  { apply chain_ranges_from; [done|].
    eapply Forall_impl; [exact Hb|]. cbn. lia. }
  apply Forall_cons in Hb as [Hfirst _].
  unfold Ranges.leading_range. case_bool_decide.
  - apply (chain_app 1 [(1, first - 1)] (first - 1)).
    + cbn. lia.
    + by replace (first - 1 + 1) with first by lia.
  - by replace 1 with first by lia.
Qed.

End chain.


(** ** Starts of the ranges *)

Lemma filter_fst_not_elem_of (rs : list (Z * Z)) m :
  m ∉ rs.*1 → filter (λ r, r.1 = m) rs = [].
Proof.
  induction rs as [|r rs IH]; [done|]. rewrite fmap_cons. intros Hm.
  apply not_elem_of_cons in Hm as [Hne Hm].
  rewrite filter_cons_False by (cbn; congruence). by apply IH.
Qed.

Lemma filter_fst_NoDup (rs : list (Z * Z)) m :
  NoDup rs.*1 → m ∈ rs.*1 → length (filter (λ r, r.1 = m) rs) = 1%nat.
Proof.
  induction rs as [|r rs IH].
  - intros _ Hm. by apply elem_of_nil in Hm.
  - rewrite fmap_cons. intros Hnd Hm. apply NoDup_cons in Hnd as [Hr Hnd].
    destruct (decide (r.1 = m)) as [Heq|Hne].
    + rewrite filter_cons_True by done. cbn.
      rewrite filter_fst_not_elem_of by congruence. done.
    + rewrite filter_cons_False by done.
      apply elem_of_cons in Hm as [->|Hm]; [done|]. by apply IH.
Qed.

(** Two consecutive pages in the sorted list: the first one's range is the
    page alone. *)
Lemma ranges_from_consecutive hs total_pages m :
  StronglySorted Z.lt hs → m ∈ hs → m + 1 ∈ hs →
  (m, m) ∈ ranges_from hs total_pages.
Proof.
  induction 1 as [|h tl Hs IH Hh]; intros Hm Hm1.
  { by apply elem_of_nil in Hm. }
  rewrite Forall_forall in Hh.
  apply elem_of_cons in Hm1 as [Heq|Hm1].
  { apply elem_of_cons in Hm as [->|Hm]; [lia|]. specialize (Hh m Hm). lia. }
  apply elem_of_cons in Hm as [->|Hm].
  - destruct tl as [|next tl']; [by apply elem_of_nil in Hm1|].
    assert (h < next) by (apply Hh; left).
    assert (next ≤ h + 1).
    { apply elem_of_cons in Hm1 as [->|Hm1]; [lia|].
      apply StronglySorted_cons in Hs as [Hn _].
      rewrite Forall_forall in Hn. specialize (Hn _ Hm1). lia. }
    change (ranges_from (h :: next :: tl') total_pages)
      with ((h, next - 1) :: ranges_from (next :: tl') total_pages).
    replace (next - 1) with h by lia. left.
  - cbn [ranges_from]. right. by apply IH.
Qed.

(** ** The derived ranges *)

(** C1.  For a document of at least one page and a non-empty collection of
    marked pages, each between 1 and [total_pages], the derivation returns
    ranges, and they are valid: sorted ascending by start, with start at
    most end in each range, each range starting right after the previous one
    ends, no page in two ranges, and the pages covered being exactly 1 to
    [total_pages]. *)
Theorem derive_ranges_valid total_pages (high_confidence_pages : list Z) :
  1 ≤ total_pages →
  high_confidence_pages ≠ [] →
  Forall (λ p, 1 ≤ p ≤ total_pages) high_confidence_pages →
  ∃ ranges,
    Ranges.derive_ranges high_confidence_pages total_pages = inr ranges
    ∧ valid_ranges total_pages ranges.
Proof.
  intros _ Hne Hb.
  destruct (derive_ranges_inr _ total_pages Hne) as (first & rest & Hs & ->).
  eexists. split; [done|].
  apply chain_valid, chain_leading_ranges_from; rewrite <-Hs.
  - apply sorted_set_sorted.
  - by apply sorted_set_Forall.
Qed.

Lemma derive_ranges_valid_witness :
  ∃ ranges,
    Ranges.derive_ranges [8; 1; 5; 1] 10 = inr ranges
    ∧ valid_ranges 10 ranges.
Proof.
  apply derive_ranges_valid; [lia|discriminate|].
  repeat constructor; lia.
Defined.

(** C5.  The three scenarios: 10 pages with pages 1, 5 and 8 marked, 6 pages
    with page 3 marked, and 4 pages with every page marked. *)
Theorem derive_ranges_scenarios :
  Ranges.derive_ranges [1; 5; 8] 10 = inr [(1, 4); (5, 7); (8, 10)]
  ∧ Ranges.derive_ranges [3] 6 = inr [(1, 2); (3, 6)]
  ∧ Ranges.derive_ranges [1; 2; 3; 4] 4
    = inr [(1, 1); (2, 2); (3, 3); (4, 4)].
Proof. split_and!; vm_compute; reflexivity. Qed.

(** C6.  Under the same preconditions every marked page is the start of
    exactly one derived range, and when a marked page is followed by the
    next page number, also marked, the one-page range of the first is among
    the derived ranges. *)
Theorem marked_page_alignment total_pages (high_confidence_pages : list Z) :
  1 ≤ total_pages →
  high_confidence_pages ≠ [] →
  Forall (λ p, 1 ≤ p ≤ total_pages) high_confidence_pages →
  ∃ ranges,
    Ranges.derive_ranges high_confidence_pages total_pages = inr ranges
    ∧ (∀ m, m ∈ high_confidence_pages →
         length (filter (λ r, r.1 = m) ranges) = 1%nat)
    ∧ (∀ m, m ∈ high_confidence_pages → m + 1 ∈ high_confidence_pages →
         (m, m) ∈ ranges ∧ range_size (m, m) = 1).
Proof.
  intros _ Hne Hb.
  destruct (derive_ranges_inr _ total_pages Hne) as (first & rest & Hs & ->).
  eexists. split; [done|].
  assert (StronglySorted Z.lt (first :: rest)) as Hsorted
    by (rewrite <-Hs; apply sorted_set_sorted).
  assert (Forall (λ p, 1 ≤ p ≤ total_pages) (first :: rest)) as Hbounds
    by (rewrite <-Hs; by apply sorted_set_Forall).
  split.
  - intros m Hm. apply filter_fst_NoDup.
    + pose proof (chain_leading_ranges_from _ _ _ Hsorted Hbounds) as Hc.
      apply chain_sorted in Hc.
      induction Hc as [|r rs Hrs IH Hr]; [constructor|].
      rewrite fmap_cons. constructor; [|done].
      rewrite Forall_forall in Hr. intros Hin.
      apply list_elem_of_fmap in Hin as (r' & Heq & Hin).
      specialize (Hr r' Hin). lia.
    + rewrite fmap_app, ranges_from_starts, <-Hs.
      apply elem_of_app. right. by apply elem_of_sorted_set.
  - intros m Hm Hm1. split; [|unfold range_size; cbn; lia].
    apply elem_of_app. right.
    apply ranges_from_consecutive; [done|rewrite <-Hs..];
      by apply elem_of_sorted_set.
Qed.

Lemma marked_page_alignment_witness :
  ∃ ranges,
    Ranges.derive_ranges [3; 2; 3] 4 = inr ranges
    ∧ length (filter (λ r, r.1 = 2) ranges) = 1%nat
    ∧ (2, 2) ∈ ranges.
Proof.
  assert (1 ≤ 4) as H1 by lia.
  assert ([3; 2; 3] ≠ []) as H2 by discriminate.
  assert (Forall (λ p, 1 ≤ p ≤ 4) [3; 2; 3]) as H3
    by (repeat constructor; lia).
  destruct (marked_page_alignment 4 [3; 2; 3] H1 H2 H3)
    as (ranges & Hranges & Hone & Hsingle).
  exists ranges. split; [exact Hranges|]. split.
  - apply Hone. right; left.
  - apply Hsingle; [right; left|left].
Defined.
(** ** The error monad *)

Section mapE.
Context {E A B : Type}.
Implicit Types (f : A → E + B) (l : list A).

Lemma mapE_inr_fmap f (g : A → B) l :
  (∀ x, x ∈ l → f x = inr (g x)) → mapE f l = inr (g <$> l).
Proof.
  induction l as [|a l IH]; intros Hf; [done|].
  cbn. rewrite Hf by left. cbn. rewrite IH; [done|].
  intros x Hx. apply Hf. by right.
Qed.

Lemma mapE_inr_Forall2 f l (bs : list B) :
  mapE f l = inr bs → Forall2 (λ a b, f a = inr b) l bs.
Proof.
  revert bs. induction l as [|a l IH]; intros bs; cbn.
  - intros [= <-]. constructor.
  - destruct (f a) as [e|b] eqn:Hfa; [done|]. cbn.
    destruct (mapE f l) as [e|bs'] eqn:Hl; [done|]. cbn.
    intros [= <-]. constructor; [done|by apply IH].
Qed.

(** A loop whose every step returns, returns. *)
Lemma mapE_is_inr f l :
  (∀ x, x ∈ l → ∃ b, f x = inr b) →
  ∃ bs, mapE f l = inr bs ∧ length bs = length l.
Proof.
  induction l as [|a l IH]; intros Hf; [by exists []|].
  destruct (Hf a) as [b Hb]; [left|].
  destruct IH as (bs & Hbs & Hlen); [intros x Hx; apply Hf; by right|].
  exists (b :: bs). cbn. rewrite Hb. cbn. rewrite Hbs. cbn.
  by rewrite Hlen.
Qed.

Lemma mapE_app f (l1 l2 : list A) :
  mapE f (l1 ++ l2)
  = (bs1 ←! mapE f l1; bs2 ←! mapE f l2; inr (bs1 ++ bs2)).
Proof.
  induction l1 as [|a l1 IH]; cbn.
  - by destruct (mapE f l2).
  - destruct (f a) as [e|b]; [done|]. cbn. rewrite IH.
    destruct (mapE f l1) as [e|bs1]; [done|]. cbn.
    by destruct (mapE f l2).
Qed.

End mapE.

(** ** The page-copy loop *)

Section copy_pages.
Context {Page : Type}.
Implicit Types (pdf_pages : list Page).

Lemma pages_getitem_inr pdf_pages index page :
  0 ≤ index → pdf_pages !! Z.to_nat index = Some page →
  pages_getitem pdf_pages index = inr page.
Proof.
  intros Hindex Hpage. unfold pages_getitem.
  apply lookup_lt_Some in Hpage as Hlt.
  rewrite (bool_decide_eq_false_2 (index < 0)) by lia.
  rewrite bool_decide_eq_false_2 by lia. by rewrite Hpage.
Qed.

Lemma mapE_getitem_seqZ pdf_pages a (n : nat) :
  0 ≤ a → a + Z.of_nat n ≤ Z.of_nat (length pdf_pages) →
  mapE (pages_getitem pdf_pages) (seqZ a (Z.of_nat n))
  = inr (take n (drop (Z.to_nat a) pdf_pages)).
Proof.
  revert a. induction n as [|n IH]; intros a Ha Hlen.
  - by rewrite seqZ_nil, take_0 by lia.
  - rewrite seqZ_cons by lia.
    destruct (lookup_lt_is_Some_2 pdf_pages (Z.to_nat a)) as [page Hpage];
      [lia|].
    cbn [mapE]. rewrite (pages_getitem_inr _ _ page) by done. cbn [bindE].
    replace (Z.pred (Z.of_nat (S n))) with (Z.of_nat n) by lia.
    rewrite IH by lia. cbn [bindE].
    rewrite (drop_S _ page (Z.to_nat a)) by done. cbn [take].
    by replace (Z.to_nat (Z.succ a)) with (S (Z.to_nat a)) by lia.
Qed.

Lemma pages_getitem_negative pdf_pages index page :
  index < 0 →
  0 ≤ Z.of_nat (length pdf_pages) + index →
  pdf_pages !! Z.to_nat (Z.of_nat (length pdf_pages) + index) = Some page →
  pages_getitem pdf_pages index = inr page.
Proof.
  intros Hneg Hin Hpage. unfold pages_getitem.
  rewrite (bool_decide_eq_true_2 (index < 0)) by done.
  rewrite bool_decide_eq_false_2 by lia. by rewrite Hpage.
Qed.

Lemma pages_getitem_below pdf_pages index :
  index < - Z.of_nat (length pdf_pages) →
  pages_getitem pdf_pages index
  = inl (IndexError "Sequence index out of range").
Proof.
  intros Hindex. unfold pages_getitem.
  rewrite (bool_decide_eq_true_2 (index < 0)) by lia.
  by rewrite bool_decide_eq_true_2 by lia.
Qed.

Lemma mapE_getitem_seqZ_negative pdf_pages a (k : nat) :
  - Z.of_nat (length pdf_pages) ≤ a → a + Z.of_nat k ≤ 0 →
  mapE (pages_getitem pdf_pages) (seqZ a (Z.of_nat k))
  = inr (take k (drop (Z.to_nat (Z.of_nat (length pdf_pages) + a)) pdf_pages)).
Proof.
  revert a. induction k as [|k IH]; intros a Ha Hk.
  - by rewrite seqZ_nil, take_0 by lia.
  - rewrite seqZ_cons by lia.
    destruct (lookup_lt_is_Some_2 pdf_pages
                (Z.to_nat (Z.of_nat (length pdf_pages) + a)))
      as [page Hpage]; [lia|].
    cbn [mapE].
    rewrite (pages_getitem_negative _ _ page) by (done || lia). cbn [bindE].
    replace (Z.pred (Z.of_nat (S k))) with (Z.of_nat k) by lia.
    rewrite IH by lia. cbn [bindE].
    rewrite (drop_S _ page (Z.to_nat (Z.of_nat (length pdf_pages) + a)))
      by done.
    cbn [take].
    by replace (Z.to_nat (Z.of_nat (length pdf_pages) + Z.succ a))
      with (S (Z.to_nat (Z.of_nat (length pdf_pages) + a))) by lia.
Qed.

(** With a start on or after page 1 the loop copies the span of the range
    and raises nothing, wherever the range ends. *)
Lemma copy_pages_span pdf_pages start end_ :
  1 ≤ start →
  copy_pages pdf_pages (Z.of_nat (length pdf_pages)) start end_
  = inr (page_span pdf_pages start end_).
Proof.
  intros Hstart. unfold copy_pages, py_range, page_span.
  set (total_pages := Z.of_nat (length pdf_pages)).
  set (stop := Z.min end_ total_pages).
  assert (take (Z.to_nat end_) pdf_pages = take (Z.to_nat stop) pdf_pages)
    as ->.
  { subst stop. destruct (decide (end_ ≤ total_pages)).
    - by rewrite Z.min_l by done.
    - rewrite Z.min_r by lia. subst total_pages.
      by rewrite Nat2Z.id, !take_ge by lia. }
  destruct (decide (stop ≤ start - 1)) as [Hempty|Hsome].
  - rewrite seqZ_nil by lia. cbn.
    rewrite drop_ge; [done|]. rewrite length_take. lia.
  - replace (stop - (start - 1))
      with (Z.of_nat (Z.to_nat (stop - (start - 1)))) by lia.
    rewrite mapE_getitem_seqZ by (subst stop total_pages; lia).
    rewrite take_drop_commute. do 3 f_equal. lia.
Qed.

Lemma copy_pages_below pdf_pages (start end_ : Z) :
  start ≤ - Z.of_nat (length pdf_pages) → start ≤ end_ →
  copy_pages pdf_pages (Z.of_nat (length pdf_pages)) start end_
  = inl (IndexError "Sequence index out of range").
Proof.
  intros Hstart Hend. unfold copy_pages, py_range.
  rewrite seqZ_cons by lia. cbn [mapE].
  by rewrite pages_getitem_below by lia.
Qed.

Lemma length_page_span pdf_pages start end_ :
  1 ≤ start →
  Z.of_nat (length (page_span pdf_pages start end_))
  = Z.max 0 (Z.min end_ (Z.of_nat (length pdf_pages)) - start + 1).
Proof.
  intros Hstart. unfold page_span. rewrite length_drop, length_take. lia.
Qed.

Lemma page_span_beyond pdf_pages start end_ :
  Z.of_nat (length pdf_pages) ≤ end_ →
  page_span pdf_pages start end_ = drop (Z.to_nat (start - 1)) pdf_pages.
Proof. intros Hend. unfold page_span. by rewrite take_ge by lia. Qed.

(** Ranges laid end to end copy the pages between their two ends. *)
Lemma chain_page_spans pdf_pages a rs b :
  chain a rs b → 1 ≤ a → b ≤ Z.of_nat (length pdf_pages) →
  concat ((λ r, page_span pdf_pages r.1 r.2) <$> rs)
  = page_span pdf_pages a b.
Proof.
  revert a. induction rs as [|[s e] rs IH]; intros a; cbn [chain].
  - intros -> Ha Hb. cbn. unfold page_span.
    rewrite drop_ge; [done|]. rewrite length_take. lia.
  - intros (-> & Hle & Hc) Ha Hb.
    destruct (chain_bounds _ _ _ Hc) as [Heb _].
    rewrite fmap_cons. cbn [concat fst snd]. rewrite (IH (e + 1)) by (done || lia).
    unfold page_span.
    replace (Z.to_nat (e + 1 - 1)) with (Z.to_nat e) by lia.
    rewrite <-(take_drop (Z.to_nat e) (take (Z.to_nat b) pdf_pages)) at 2.
    rewrite take_take, Nat.min_l by lia.
    rewrite drop_app_le; [done|]. rewrite length_take. lia.
Qed.
End copy_pages.

(** ** Texts *)

Section texts.
Implicit Types (s stem ext : string) (c : ascii).

Lemma list_ascii_of_string_app s1 s2 :
  String.list_ascii_of_string (s1 +:+ s2)
  = String.list_ascii_of_string s1 ++ String.list_ascii_of_string s2.
Proof.
  induction s1 as [|c s1 IH]; [done|].
  change (String c s1 +:+ s2) with (String c (s1 +:+ s2)).
  cbn. by rewrite IH.
Qed.

Lemma rsplit_dot_head_None s :
  rsplit_dot_head s = None ↔ "."%char ∉ String.list_ascii_of_string s.
Proof.
  induction s as [|c s IH]; cbn.
  - split; [intros _; apply not_elem_of_nil|done].
  - rewrite not_elem_of_cons, <-IH.
    destruct (rsplit_dot_head s) as [head|].
    + split; [done|]. by intros [_ ?].
    + case_bool_decide as Hc.
      * split; [done|]. intros [Hne _]. by destruct Hne.
      * split; [|done]. intros _. split; [congruence|done].
Qed.

Lemma rsplit_dot_head_app stem ext :
  rsplit_dot_head ext = None →
  rsplit_dot_head (stem +:+ "." +:+ ext) = Some stem.
Proof.
  intros Hext. induction stem as [|c stem IH].
  - change ("" +:+ "." +:+ ext) with (String "." ext).
    cbn [rsplit_dot_head]. by rewrite Hext.
  - change (String c stem +:+ "." +:+ ext)
      with (String c (stem +:+ "." +:+ ext)).
    cbn [rsplit_dot_head]. by rewrite IH.
Qed.

Lemma pretty_N_go_chars c (x : N) s :
  c ∈ String.list_ascii_of_string (pretty_N_go x s) →
  c ∈ String.list_ascii_of_string "0123456789"
  ∨ c ∈ String.list_ascii_of_string s.
Proof.
  revert s. induction (N.lt_wf_0 x) as [x _ IH]; intros s.
  destruct (decide (0 < x)%N) as [Hpos|Hzero].
  - rewrite pretty_N_go_step by done. intros Hc.
    apply IH in Hc as [Hc|Hc]; [by left| |apply N.div_lt; lia].
    cbn in Hc. apply elem_of_cons in Hc as [->|Hc]; [left|by right].
    unfold pretty_N_char. cbn.
    repeat case_match; rewrite !elem_of_cons; tauto.
  - assert (x = 0%N) as -> by lia. rewrite pretty_N_go_0. by right.
Qed.

(** [str] of an integer has digits and the minus sign only. *)
Lemma pretty_Z_chars c (z : Z) :
  c ∈ String.list_ascii_of_string (pretty z) →
  c ∈ String.list_ascii_of_string "-0123456789".
Proof.
  assert (∀ n : N, c ∈ String.list_ascii_of_string (pretty n) →
                   c ∈ String.list_ascii_of_string "0123456789") as HN.
  { intros n. unfold pretty, pretty_N. case_decide.
    - cbn. rewrite !elem_of_cons. tauto.
    - intros [Hc|Hc]%pretty_N_go_chars; [done|].
      by apply elem_of_nil in Hc. }
  change (String.list_ascii_of_string "-0123456789")
    with ("-"%char :: String.list_ascii_of_string "0123456789").
  destruct z as [|p|p]; unfold pretty, pretty_Z.
  - cbn. rewrite !elem_of_cons. tauto.
  - intros Hc. right. by apply (HN (Npos p)).
  - change (c ∈ "-"%char :: String.list_ascii_of_string (pretty (Npos p))
            → c ∈ "-"%char :: String.list_ascii_of_string "0123456789").
    rewrite !(elem_of_cons _ c "-"%char). intros [->|Hc]; [by left|].
    right. by apply (HN (Npos p)).
Qed.

Lemma pretty_Z_no_underscore (z : Z) :
  "_"%char ∉ String.list_ascii_of_string (pretty z).
Proof.
  intros Hc%pretty_Z_chars. cbn in Hc.
  rewrite !elem_of_cons, elem_of_nil in Hc. intuition discriminate.
Qed.

Lemma pretty_Z_no_nul (z : Z) :
  NUL ∉ String.list_ascii_of_string (pretty z).
Proof.
  intros Hc%pretty_Z_chars. cbn in Hc.
  rewrite !elem_of_cons, elem_of_nil in Hc. intuition discriminate.
Qed.

(** Two texts without an underscore that are followed by an underscore in
    equal strings are equal. *)
Lemma app_underscore_inj (u v x y : string) :
  "_"%char ∉ String.list_ascii_of_string u →
  "_"%char ∉ String.list_ascii_of_string v →
  u +:+ String "_" x = v +:+ String "_" y → u = v.
Proof.
  revert v. induction u as [|a u IH]; intros [|b v]; cbn; intros Hu Hv Heq.
  - done.
  - injection Heq as <- _. by apply not_elem_of_cons in Hv as [? _].
  - injection Heq as -> _. by apply not_elem_of_cons in Hu as [? _].
  - injection Heq as -> Heq. f_equal.
    apply not_elem_of_cons in Hu as [_ Hu].
    apply not_elem_of_cons in Hv as [_ Hv]. by apply IH.
Qed.

Lemma split_filename_inj original_filename idx1 idx2 start1 start2 end1 end2 :
  split_filename original_filename idx1 start1 end1
  = split_filename original_filename idx2 start2 end2 →
  idx1 = idx2.
Proof.
  unfold split_filename. intros Heq.
  apply (inj (String.app _)), (inj (String.app "_part_")) in Heq.
  apply (inj pretty).
  eapply app_underscore_inj; [apply pretty_Z_no_underscore..|exact Heq].
Qed.

Lemma cut_at_nul_id s :
  NUL ∉ String.list_ascii_of_string s → cut_at_nul s = s.
Proof.
  induction s as [|c s IH]; [done|]. cbn.
  rewrite not_elem_of_cons. intros [Hc Hs].
  rewrite bool_decide_eq_false_2 by done. by rewrite IH.
Qed.

(** The name of a part has a NUL only where the base name has one. *)
Lemma cut_at_nul_split_filename original_filename idx start end_ :
  NUL ∉ String.list_ascii_of_string (base_name original_filename) →
  cut_at_nul (split_filename original_filename idx start end_)
  = split_filename original_filename idx start end_.
Proof.
  intros Hbase. apply cut_at_nul_id. unfold split_filename.
  rewrite !list_ascii_of_string_app, !not_elem_of_app.
  split_and!; try done; try apply pretty_Z_no_nul.
  all: cbn; rewrite !not_elem_of_cons; split_and!;
    [discriminate..|apply not_elem_of_nil].
Qed.

Lemma split_filename_not_empty original_filename idx start end_ :
  split_filename original_filename idx start end_ ≠ EmptyString.
Proof.
  unfold split_filename. by destruct (base_name original_filename).
Qed.

Lemma archive_writes_split_filename original_filename idx start end_ :
  NUL ∉ String.list_ascii_of_string (base_name original_filename) →
  Z.of_nat (String.length (split_filename original_filename idx start end_))
    ≤ 65535 →
  archive_writes (split_filename original_filename idx start end_).
Proof.
  intros Hbase Hlen. unfold archive_writes.
  rewrite cut_at_nul_split_filename by done.
  split; [apply split_filename_not_empty|done].
Qed.

Lemma archive_writes_part_names original_filename (rs : list (Z * Z)) :
  NUL ∉ String.list_ascii_of_string (base_name original_filename) →
  Forall (λ name, Z.of_nat (String.length name) ≤ 65535)
    (part_names original_filename rs) →
  Forall archive_writes (part_names original_filename rs).
Proof.
  intros Hbase Hlen. rewrite Forall_forall in Hlen. apply Forall_forall.
  intros name Hin. specialize (Hlen name Hin). unfold part_names in Hin.
  apply elem_of_lookup_imap in Hin as (i & r & -> & _).
  by apply archive_writes_split_filename.
Qed.

Lemma writestr_inr name data :
  archive_writes name → writestr name data = inr (cut_at_nul name, data).
Proof.
  intros [Hne Hlen]. unfold writestr.
  rewrite bool_decide_eq_false_2 by done.
  by rewrite bool_decide_eq_true_2 by done.
Qed.

Lemma writestr_inv name data entry :
  writestr name data = inr entry →
  archive_writes name ∧ entry = (cut_at_nul name, data).
Proof.
  unfold writestr, archive_writes.
  repeat case_bool_decide; [done| |done]. by intros [= <-].
Qed.

End texts.

(** ** Slicing *)

Section slice.
Context {Page : Type}.
Variable PdfReader : bytes → Exception + list Page.
Variable PdfWriter_write : list Page → bytes.
Implicit Types (pdf_pages : list Page) (rs : list (Z * Z)).

Lemma elem_of_enumerate {A} (l : list A) n idx x :
  (idx, x) ∈ enumerate l n →
  ∃ i : nat, idx = n + Z.of_nat i ∧ l !! i = Some x.
Proof.
  unfold enumerate. intros Hin.
  apply elem_of_lookup_imap in Hin as (i & y & Heq & Hy).
  injection Heq as -> ->. eauto.
Qed.

Lemma slice_parts pdf_pages fname original_filename rs :
  get_original_filename fname = inr original_filename →
  Forall (λ r, 1 ≤ r.1) rs →
  slice PdfWriter_write pdf_pages (Z.of_nat (length pdf_pages)) fname rs
  = inr (imap (part PdfWriter_write pdf_pages original_filename) rs).
Proof.
  intros Hname Hstart. unfold slice.
  rewrite (mapE_inr_fmap _
    (λ item, {| filename :=
                  split_filename original_filename item.1 item.2.1 item.2.2;
                content :=
                  PdfWriter_write (page_span pdf_pages item.2.1 item.2.2);
                label := pages_label item.2.1 item.2.2 |})).
  - unfold enumerate. by rewrite fmap_imap.
  - intros [idx [start end_]] Hin.
    apply elem_of_enumerate in Hin as (i & -> & Hi).
    rewrite Forall_forall in Hstart.
    apply list_elem_of_lookup_2, Hstart in Hi. cbn in Hi.
    unfold split_one. rewrite copy_pages_span by done.
    cbn. by rewrite Hname.
Qed.

Lemma derive_ranges_nil total_pages :
  Ranges.derive_ranges [] total_pages
  = inl (IndexError "list index out of range").
Proof.
  unfold Ranges.derive_ranges.
  by rewrite (proj2 (sorted_set_nil []) eq_refl).
Qed.

Lemma derive_ranges_starts (high_confidence_pages : list Z) total_pages rs :
  Ranges.derive_ranges high_confidence_pages total_pages = inr rs →
  Forall (λ p, 1 ≤ p) high_confidence_pages →
  Forall (λ r, 1 ≤ r.1) rs.
Proof.
  intros Hderive Hpos.
  destruct high_confidence_pages as [|p ps] eqn:Hpages.
  { by rewrite derive_ranges_nil in Hderive. }
  destruct (derive_ranges_inr (p :: ps) total_pages)
    as (first & rest & Hs & Heq); [done|].
  rewrite Heq in Hderive. injection Hderive as <-.
  apply leading_ranges_from_starts. rewrite <-Hs.
  by apply sorted_set_Forall.
Qed.

Lemma slice_filename_none pdf_pages rs :
  rs ≠ [] → Forall (λ r, 1 ≤ r.1) rs →
  slice PdfWriter_write pdf_pages (Z.of_nat (length pdf_pages)) PyNone rs
  = inl (TypeError "argument of type 'NoneType' is not iterable").
Proof.
  intros Hne Hstart. destruct rs as [|[start end_] rs]; [done|].
  apply Forall_cons in Hstart as [Hstart _].
  unfold slice, enumerate. rewrite imap_cons. cbn [mapE].
  unfold split_one at 1. by rewrite copy_pages_span.
Qed.

Lemma bundle_parts pdf_pages original_filename rs :
  Forall archive_writes (part_names original_filename rs) →
  bundle (imap (part PdfWriter_write pdf_pages original_filename) rs)
  = inr (imap (archive_entry PdfWriter_write pdf_pages original_filename) rs).
Proof.
  intros Hwrites. unfold bundle.
  rewrite (mapE_inr_fmap _
    (λ split_pdf, (cut_at_nul (filename split_pdf), content split_pdf))).
  - by rewrite fmap_imap.
  - intros split_pdf Hin.
    apply elem_of_lookup_imap in Hin as (i & r & -> & Hr).
    apply writestr_inr. rewrite Forall_forall in Hwrites.
    apply Hwrites. unfold part_names. apply elem_of_lookup_imap. eauto.
Qed.

(** What [bundle] returns is the list of the names cut at their first NUL. *)
Lemma bundle_inv (split_pdfs : list SplitPdf) entries :
  bundle split_pdfs = inr entries →
  Forall archive_writes (filename <$> split_pdfs)
  ∧ entries
    = (λ split_pdf, (cut_at_nul (filename split_pdf), content split_pdf))
        <$> split_pdfs.
Proof.
  unfold bundle. intros Hall%mapE_inr_Forall2.
  induction Hall as [|split_pdf entry split_pdfs entries Hentry _ [IH1 IH2]];
    [done|].
  apply writestr_inv in Hentry as [Hwrites ->].
  rewrite !fmap_cons. split; [by constructor|by rewrite IH2].
Qed.

(** The response for pages that are all at least 1, when the archive
    stores every part and the header can be encoded. *)
Lemma split_segments_parts segs content_ fname original_filename pdf_pages rs
    raw_header :
  PdfReader content_ = inr pdf_pages →
  get_original_filename fname = inr original_filename →
  Ranges.derive_ranges (collect_high_confidence_pages segs)
    (Z.of_nat (length pdf_pages)) = inr rs →
  Forall (λ p, 1 ≤ p) (collect_high_confidence_pages segs) →
  Forall archive_writes (part_names original_filename rs) →
  encode_latin1 (content_disposition original_filename) = inr raw_header →
  split_segments PdfReader PdfWriter_write segs content_ fname
  = inr {| zip_entries :=
             imap (archive_entry PdfWriter_write pdf_pages original_filename)
               rs;
           attachment := content_disposition original_filename |}.
Proof.
  intros Hread Hname Hderive Hpos Hwrites Hheader. unfold split_segments.
  rewrite bool_decide_eq_false_2.
  2: { intros Hnil. by rewrite Hnil, derive_ranges_nil in Hderive. }
  unfold try_split. rewrite Hread. cbn [bindE].
  unfold Ranges.derive_ranges in Hderive. rewrite Hderive. cbn [bindE].
  rewrite (slice_parts _ _ original_filename)
    by (done || by eapply derive_ranges_starts).
  cbn [bindE]. rewrite bundle_parts by done. cbn [bindE].
  rewrite Hname. cbn [bindE]. by rewrite Hheader.
Qed.

(** What a returned response went through, for pages that are all at least
    1. *)
Lemma split_segments_inv segs content_ fname response :
  Forall (λ p, 1 ≤ p) (collect_high_confidence_pages segs) →
  split_segments PdfReader PdfWriter_write segs content_ fname = inr response →
  ∃ pdf_pages original_filename rs raw_header,
    PdfReader content_ = inr pdf_pages
    ∧ get_original_filename fname = inr original_filename
    ∧ Ranges.derive_ranges (collect_high_confidence_pages segs)
        (Z.of_nat (length pdf_pages)) = inr rs
    ∧ Forall archive_writes (part_names original_filename rs)
    ∧ encode_latin1 (content_disposition original_filename) = inr raw_header.
Proof.
  intros Hpos. unfold split_segments. case_bool_decide as Hne; [done|].
  destruct (try_split _ _ _ _ _) as [e|response'] eqn:Htry; [done|].
  intros _. unfold try_split in Htry.
  destruct (PdfReader content_) as [e|pdf_pages] eqn:Hread; [done|].
  cbn [bindE] in Htry.
  destruct (derive_ranges_inr _ (Z.of_nat (length pdf_pages)) Hne)
    as (first & rest & _ & Hderive).
  pose proof (derive_ranges_starts _ _ _ Hderive Hpos) as Hstart.
  exists pdf_pages. unfold Ranges.derive_ranges in Hderive.
  rewrite Hderive in Htry. cbn [bindE] in Htry.
  destruct (get_original_filename fname) as [e|original_filename] eqn:Hname.
  { destruct fname; [done| |done].
    rewrite slice_filename_none in Htry; [done| |done].
    unfold Ranges.leading_range. by case_bool_decide. }
  rewrite (slice_parts _ _ original_filename) in Htry by done.
  cbn [bindE] in Htry.
  destruct (bundle _) as [e|entries] eqn:Hbundle; [done|].
  apply bundle_inv in Hbundle as [Hwrites _]. cbn [bindE] in Htry.
  destruct (encode_latin1 _) as [e|raw_header] eqn:Hheader; [done|].
  exists original_filename. eexists. exists raw_header.
  split_and!; [done|done|exact Hderive| |done].
  unfold part_names. by rewrite fmap_imap in Hwrites.
Qed.

End slice.

(** ** Collecting the pages *)

Lemma extend_with_segment_no_pages acc segment :
  pages segment = None → extend_with_segment acc segment = acc.
Proof.
  intros Hnone. unfold extend_with_segment. rewrite Hnone. cbn.
  by case_bool_decide.
Qed.

Lemma collect_skips_segment_without_pages segs1 segment segs2 :
  pages segment = None →
  collect_high_confidence_pages (segs1 ++ segment :: segs2)
  = collect_high_confidence_pages (segs1 ++ segs2).
Proof.
  intros Hnone. unfold collect_high_confidence_pages.
  rewrite !foldl_app. cbn [foldl].
  by rewrite extend_with_segment_no_pages.
Qed.

(** ** Ranges that end after the last page *)

(** C2, as the code has it.  A range that starts on or after page 1 and ends
    after the last page of the source does not make slicing fail: slicing
    returns one document per range, and the document of such a range holds
    the pages from its start to the last page of the source (none when the
    start is after the last page), under a name that keeps the range's own
    end. *)
Theorem slice_clamps_to_source {Page} (PdfWriter_write : list Page → bytes)
    (pdf_pages : list Page) (fname : py_field string)
    (original_filename : string) (split_ranges : list (Z * Z)) :
  get_original_filename fname = inr original_filename →
  Forall (λ r, 1 ≤ r.1) split_ranges →
  ∃ split_pdfs,
    slice PdfWriter_write pdf_pages (Z.of_nat (length pdf_pages)) fname
      split_ranges = inr split_pdfs
    ∧ length split_pdfs = length split_ranges
    ∧ ∀ (i : nat) start end_,
        split_ranges !! i = Some (start, end_) →
        Z.of_nat (length pdf_pages) < end_ →
        split_pdfs !! i
        = Some {| filename :=
                    split_filename original_filename (1 + Z.of_nat i) start end_;
                  content :=
                    PdfWriter_write (drop (Z.to_nat (start - 1)) pdf_pages);
                  label := pages_label start end_ |}.
Proof.
  intros Hname Hstart. eexists. split; [by apply slice_parts|].
  split; [by rewrite length_imap|].
  intros i start end_ Hi Hend. rewrite list_lookup_imap, Hi. cbn.
  unfold part. cbn. by rewrite page_span_beyond by lia.
Qed.

Lemma slice_clamps_to_source_witness :
  ∃ split_pdfs,
    slice OneBytePages.PdfWriter_write [Byte.x01; Byte.x02; Byte.x03] 3
      (Value "scan.pdf") [(2, 5)] = inr split_pdfs
    ∧ length split_pdfs = 1%nat
    ∧ ∀ (i : nat) start end_,
        [(2, 5)] !! i = Some (start, end_) →
        3 < end_ →
        split_pdfs !! i
        = Some {| filename := split_filename "scan.pdf" (1 + Z.of_nat i) start end_;
                  content := drop (Z.to_nat (start - 1)) [Byte.x01; Byte.x02; Byte.x03];
                  label := pages_label start end_ |}.
Proof.
  apply (slice_clamps_to_source OneBytePages.PdfWriter_write
           [Byte.x01; Byte.x02; Byte.x03] (Value "scan.pdf") "scan.pdf" [(2, 5)]).
  - reflexivity.
  - repeat constructor. cbn. lia.
Defined.

(** Scenario E of the specification on the code: slicing a source of three
    pages with the range (2, 5) raises nothing and returns the document of
    pages 2 and 3.  The range (2, 5) is the one derived for a source of three
    pages when pages 2 and 6 are marked, and the response is an archive of
    three parts. *)
Lemma slice_beyond_source_returns :
  slice OneBytePages.PdfWriter_write [Byte.x01; Byte.x02; Byte.x03] 3
    (Value "scan.pdf") [(2, 5)]
  = inr [ {| filename := "scan_part_1_pages_2-5.pdf";
             content := [Byte.x02; Byte.x03];
             label := "2-5" |} ]
  ∧ (¬ ∃ e : Exception,
         slice OneBytePages.PdfWriter_write [Byte.x01; Byte.x02; Byte.x03] 3
           (Value "scan.pdf") [(2, 5)] = inl e)
  ∧ split_segments OneBytePages.PdfReader OneBytePages.PdfWriter_write
      [mkSegment (Some "high") (Some (PagesList [2; 6]))]
      [Byte.x01; Byte.x02; Byte.x03] (Value "scan.pdf")
    = inr {| zip_entries :=
               [("scan_part_1_pages_1-1.pdf", [Byte.x01]);
                ("scan_part_2_pages_2-5.pdf", [Byte.x02; Byte.x03]);
                ("scan_part_3_pages_6-3.pdf", [])];
             attachment := "attachment; filename=scan_split_pdfs.zip" |}.
Proof.
  split_and!; [vm_compute; reflexivity| |vm_compute; reflexivity].
  intros [e He]. vm_compute in He. discriminate He.
Qed.

(** ** The page-copy loop and the bounds of the document *)

(** Pages 2 and -3 marked on a source of three pages: the first derived
    range is (-3, 1), the loop of line 531 starts at index -4, which is not
    an index of the document, the read raises and the endpoint answers
    500. *)
Lemma copy_pages_reads_below_document :
  Ranges.derive_ranges [2; -3] 3 = inr [(-3, 1); (2, 3)]
  ∧ py_range (-3 - 1) (Z.min 1 3) = [-4; -3; -2; -1; 0]
  ∧ pages_getitem [Byte.x01; Byte.x02; Byte.x03] (-4)
    = inl (IndexError "Sequence index out of range")
  ∧ copy_pages [Byte.x01; Byte.x02; Byte.x03] 3 (-3) 1
    = inl (IndexError "Sequence index out of range")
  ∧ (¬ ∃ written,
         copy_pages [Byte.x01; Byte.x02; Byte.x03] 3 (-3) 1 = inr written)
  ∧ split_segments OneBytePages.PdfReader OneBytePages.PdfWriter_write
      [mkSegment (Some "high") (Some (PagesList [2; -3]))]
      [Byte.x01; Byte.x02; Byte.x03] (Value "scan.pdf")
    = inl (mkHTTPException 500
             "Error splitting PDF: Sequence index out of range").
Proof.
  split_and!; try (vm_compute; reflexivity).
  intros [written Hwritten]. vm_compute in Hwritten. discriminate Hwritten.
Qed.

(** C10, as the code has it.  The loop of line 531 reads only indices
    between [start - 1] and [min(end, total_pages) - 1].  For a range whose
    start is above [- total_pages] these are indices that the page list
    accepts (from [- total_pages] to [total_pages - 1], and from 0 when the
    range starts on or after page 1), every read returns a page, and the
    loop adds [max(0, min(end, total_pages) - start + 1)] pages, also when
    [end] is larger than [total_pages].  For a range whose start is at or
    below [- total_pages] and not after its end, the first read raises. *)
Theorem copy_pages_in_bounds {Page} (pdf_pages : list Page) (start end_ : Z) :
  let total_pages := Z.of_nat (length pdf_pages) in
  (∀ page_num, page_num ∈ py_range (start - 1) (Z.min end_ total_pages) →
     start - 1 ≤ page_num ≤ Z.min end_ total_pages - 1)
  ∧ (- total_pages < start →
     (∀ page_num, page_num ∈ py_range (start - 1) (Z.min end_ total_pages) →
        - total_pages ≤ page_num < total_pages
        ∧ (1 ≤ start → 0 ≤ page_num)
        ∧ ∃ page, pages_getitem pdf_pages page_num = inr page)
     ∧ ∃ written,
         copy_pages pdf_pages total_pages start end_ = inr written
         ∧ Z.of_nat (length written)
           = Z.max 0 (Z.min end_ total_pages - start + 1))
  ∧ (start ≤ - total_pages → start ≤ end_ →
     copy_pages pdf_pages total_pages start end_
     = inl (IndexError "Sequence index out of range")).
Proof.
  intros total_pages.
  assert (∀ page_num,
            page_num ∈ py_range (start - 1) (Z.min end_ total_pages) →
            start - 1 ≤ page_num ≤ Z.min end_ total_pages - 1) as Hindex.
  { intros page_num Hin. unfold py_range in Hin.
    apply elem_of_seqZ in Hin. lia. }
  split; [done|]. split; [|by apply copy_pages_below].
  intros Hlow.
  assert (∀ page_num,
            page_num ∈ py_range (start - 1) (Z.min end_ total_pages) →
            ∃ page, pages_getitem pdf_pages page_num = inr page) as Hread.
  { intros page_num Hin%Hindex.
    destruct (decide (0 ≤ page_num)) as [Hpos|Hneg].
    - destruct (lookup_lt_is_Some_2 pdf_pages (Z.to_nat page_num))
        as [page Hpage]; [subst total_pages; lia|].
      exists page. by apply pages_getitem_inr.
    - destruct (lookup_lt_is_Some_2 pdf_pages
                  (Z.to_nat (Z.of_nat (length pdf_pages) + page_num)))
        as [page Hpage]; [subst total_pages; lia|].
      exists page. apply pages_getitem_negative; [lia| |done].
      subst total_pages. lia. }
  split.
  - intros page_num Hin. split; [|split; [|by apply Hread]].
    + apply Hindex in Hin. lia.
    + intros Hstart. apply Hindex in Hin. lia.
  - destruct (mapE_is_inr (pages_getitem pdf_pages)
                (py_range (start - 1) (Z.min end_ total_pages)) Hread)
      as (written & Hwritten & Hlength).
    exists written. split; [done|].
    rewrite Hlength. unfold py_range. rewrite length_seqZ. lia.
Qed.

Lemma copy_pages_in_bounds_witness :
  ∃ written,
    copy_pages [Byte.x01; Byte.x02; Byte.x03] 3 (-1) 5 = inr written
    ∧ Z.of_nat (length written) = Z.max 0 (Z.min 5 3 - -1 + 1).
Proof.
  assert (- 3 < -1) as Hlow by lia.
  exact (proj2 (proj1 (proj2 (copy_pages_in_bounds
                                [Byte.x01; Byte.x02; Byte.x03] (-1) 5))
                  Hlow)).
Defined.

(** ** Page count preservation *)

Lemma sum_list_length_concat {A} (ls : list (list A)) :
  sum_list (length <$> ls) = length (concat ls).
Proof.
  induction ls as [|l ls IH]; [done|].
  cbn. rewrite length_app. by rewrite IH.
Qed.

(** C4.  For a source of at least one page and a non-empty collection of
    marked pages within the source, slicing the derived ranges returns
    documents whose writers were given page lists that, one after the other,
    are the pages of the source; so their page counts add up to the page
    count of the source. *)
Theorem page_count_preservation {Page} (PdfWriter_write : list Page → bytes)
    (pdf_pages : list Page) (high_confidence_pages : list Z)
    (fname : py_field string) (original_filename : string) :
  let total_pages := Z.of_nat (length pdf_pages) in
  1 ≤ total_pages →
  high_confidence_pages ≠ [] →
  Forall (λ p, 1 ≤ p ≤ total_pages) high_confidence_pages →
  get_original_filename fname = inr original_filename →
  ∃ (ranges : list (Z * Z)) (split_pdfs : list SplitPdf)
    (written : list (list Page)),
    Ranges.derive_ranges high_confidence_pages total_pages = inr ranges
    ∧ slice PdfWriter_write pdf_pages total_pages fname ranges
      = inr split_pdfs
    ∧ Forall2 (λ r w, copy_pages pdf_pages total_pages r.1 r.2 = inr w)
        ranges written
    ∧ content <$> split_pdfs = PdfWriter_write <$> written
    ∧ concat written = pdf_pages
    ∧ Z.of_nat (sum_list (length <$> written)) = total_pages.
Proof.
  intros total_pages _ Hne Hb Hname.
  destruct (derive_ranges_inr _ total_pages Hne)
    as (first & rest & Hs & Hderive).
  set (ranges := Ranges.leading_range first
                   ++ ranges_from (first :: rest) total_pages) in *.
  assert (chain 1 ranges total_pages) as Hc.
  { apply chain_leading_ranges_from; rewrite <-Hs;
      [apply sorted_set_sorted|by apply sorted_set_Forall]. }
  assert (Forall (λ r, 1 ≤ r.1) ranges) as Hstart.
  { eapply derive_ranges_starts; [exact Hderive|].
    eapply Forall_impl; [exact Hb|]. cbn. lia. }
  assert (concat ((λ r, page_span pdf_pages r.1 r.2) <$> ranges) = pdf_pages)
    as Hcat.
  { rewrite (chain_page_spans pdf_pages 1 ranges total_pages) by (done || lia).
    unfold page_span, total_pages. cbn. by rewrite Nat2Z.id, take_ge. }
  exists ranges,
    (imap (part PdfWriter_write pdf_pages original_filename) ranges),
    ((λ r, page_span pdf_pages r.1 r.2) <$> ranges).
  split_and!.
  - done.
  - by apply slice_parts.
  - apply Forall2_fmap_r, Forall_Forall2_diag.
    eapply Forall_impl; [exact Hstart|]. intros r Hr.
    by apply copy_pages_span.
  - rewrite fmap_imap, <-list_fmap_compose.
    apply list_eq. intros i. by rewrite list_lookup_imap, list_lookup_fmap.
  - done.
  - by rewrite sum_list_length_concat, Hcat.
Qed.

Lemma page_count_preservation_witness :
  ∃ (ranges : list (Z * Z)) (split_pdfs : list SplitPdf)
    (written : list (list Byte.byte)),
    Ranges.derive_ranges [8; 1; 5] 10 = inr ranges
    ∧ slice OneBytePages.PdfWriter_write OneBytePages.ten_pages 10
        (Value "scan.pdf") ranges = inr split_pdfs
    ∧ Forall2 (λ r w, copy_pages OneBytePages.ten_pages 10 r.1 r.2 = inr w)
        ranges written
    ∧ content <$> split_pdfs = OneBytePages.PdfWriter_write <$> written
    ∧ concat written = OneBytePages.ten_pages
    ∧ Z.of_nat (sum_list (length <$> written)) = 10.
Proof.
  apply (page_count_preservation OneBytePages.PdfWriter_write
           OneBytePages.ten_pages [8; 1; 5] (Value "scan.pdf") "scan.pdf").
  - cbn. lia.
  - discriminate.
  - repeat constructor; cbn; lia.
  - reflexivity.
Defined.

(** ** No marked pages *)

(** C3.  When no page is collected from the segments, the response is the
    error of line 496 whatever the stored file and its name are, and neither
    ranges nor documents are produced; through the endpoint every such job
    is answered with a 400, which is that error once the job is completed
    and its file is stored. *)
Theorem no_marked_pages_fails {Page}
    (PdfReader : bytes → Exception + list Page)
    (PdfWriter_write : list Page → bytes) (segs : list Segment) :
  collect_high_confidence_pages segs = [] →
  (∀ content_ fname,
     split_segments PdfReader PdfWriter_write segs content_ fname
     = inl no_high_confidence_pages)
  ∧ (∀ (jobs_storage : gmap string Job) job_id job,
       jobs_storage !! job_id = Some job →
       result job = Some {| segments := Some segs |} →
       (∃ e, split_pdf_by_confidence PdfReader PdfWriter_write jobs_storage
               job_id = inl e
             ∧ status_code e = 400)
       ∧ (status job = Some "completed" →
          (∃ b content_, original_file_content job = Some (b :: content_)) →
          split_pdf_by_confidence PdfReader PdfWriter_write jobs_storage job_id
          = inl no_high_confidence_pages)).
Proof.
  intros Hempty.
  assert (∀ content_ fname,
            split_segments PdfReader PdfWriter_write segs content_ fname
            = inl no_high_confidence_pages) as Hcore.
  { intros content_ fname. unfold split_segments.
    by rewrite bool_decide_eq_true_2. }
  split; [done|].
  intros jobs_storage job_id job Hjob Hresult.
  unfold split_pdf_by_confidence. rewrite Hjob, Hresult. split.
  - case_bool_decide; [by eexists|].
    destruct (original_file_content job) as [[|b content_]|];
      [by eexists| |by eexists].
    rewrite Hcore. by eexists.
  - intros Hstatus (b & content_ & Hfile).
    rewrite bool_decide_eq_false_2 by (rewrite Hstatus; naive_solver).
    by rewrite Hfile.
Qed.

Lemma no_marked_pages_fails_witness :
  split_segments OneBytePages.PdfReader OneBytePages.PdfWriter_write
    [mkSegment (Some "low") (Some (PagesList [1; 2]))]
    OneBytePages.ten_pages (Value "scan.pdf")
  = inl no_high_confidence_pages.
Proof.
  apply (no_marked_pages_fails OneBytePages.PdfReader
           OneBytePages.PdfWriter_write
           [mkSegment (Some "low") (Some (PagesList [1; 2]))]).
  reflexivity.
Defined.

(** ** Missing fields of the result *)

(** On that job the endpoint raises nothing: the segment without pages is
    passed over and the archive is the one of the other segment. *)
Lemma segment_without_pages_accepted :
  split_pdf_by_confidence OneBytePages.PdfReader OneBytePages.PdfWriter_write
    {[ "job-1" := job_with_segment_without_pages ]} "job-1"
  = inr {| zip_entries :=
             [("scan_part_1_pages_1-2.pdf", [Byte.x01; Byte.x02]);
              ("scan_part_2_pages_3-6.pdf",
               [Byte.x03; Byte.x04; Byte.x05; Byte.x06])];
           attachment := "attachment; filename=scan_split_pdfs.zip" |}
  ∧ ¬ ∃ e : HTTPException,
        split_pdf_by_confidence OneBytePages.PdfReader
          OneBytePages.PdfWriter_write
          {[ "job-1" := job_with_segment_without_pages ]} "job-1" = inl e.
Proof.
  split; [vm_compute; reflexivity|].
  intros [e He]. vm_compute in He. discriminate He.
Qed.

(** C8, as the code has it.  A completed job whose result is absent or has no
    ["segments"] key is answered with the error of line 478.  A segment
    without the ["pages"] key raises nothing: the response is the one the
    same segments give without that segment. *)
Theorem missing_fields {Page} (PdfReader : bytes → Exception + list Page)
    (PdfWriter_write : list Page → bytes) :
  (∀ (jobs_storage : gmap string Job) job_id job,
     jobs_storage !! job_id = Some job →
     status job = Some "completed" →
     result job = None ∨ result job = Some {| segments := None |} →
     split_pdf_by_confidence PdfReader PdfWriter_write jobs_storage job_id
     = inl result_not_available)
  ∧ (∀ segs1 segment segs2 content_ fname,
       pages segment = None →
       split_segments PdfReader PdfWriter_write (segs1 ++ segment :: segs2)
         content_ fname
       = split_segments PdfReader PdfWriter_write (segs1 ++ segs2)
           content_ fname).
Proof.
  split.
  - intros jobs_storage job_id job Hjob Hstatus Hresult.
    unfold split_pdf_by_confidence. rewrite Hjob.
    rewrite bool_decide_eq_false_2 by (rewrite Hstatus; naive_solver).
    by destruct Hresult as [-> | ->].
  - intros segs1 segment segs2 content_ fname Hnone.
    unfold split_segments.
    by rewrite collect_skips_segment_without_pages.
Qed.

Lemma missing_fields_witness :
  split_pdf_by_confidence OneBytePages.PdfReader OneBytePages.PdfWriter_write
    {[ "job-2" := mkJob (Some "completed") (Some {| segments := None |})
                    (Some OneBytePages.ten_pages) (Value "scan.pdf") ]}
    "job-2"
  = inl result_not_available
  ∧ split_segments OneBytePages.PdfReader OneBytePages.PdfWriter_write
      ([mkSegment (Some "high") (Some (PagesList [3]))]
         ++ mkSegment (Some "high") None :: [])
      OneBytePages.ten_pages (Value "scan.pdf")
    = split_segments OneBytePages.PdfReader OneBytePages.PdfWriter_write
        ([mkSegment (Some "high") (Some (PagesList [3]))] ++ [])
        OneBytePages.ten_pages (Value "scan.pdf").
Proof.
  destruct (missing_fields OneBytePages.PdfReader OneBytePages.PdfWriter_write)
    as [Hresult Hsegment].
  split.
  - eapply Hresult; [apply lookup_singleton_eq|reflexivity|by right].
  - by apply Hsegment.
Defined.

(** ** Names of the parts and entries of the archive *)

(** A source file with an upper-case extension: the first part, of pages 1
    to 4, is written under a name that ends in [.pdf], not in the [.PDF] of
    the source. *)
Lemma part_name_drops_source_extension :
  split_segments OneBytePages.PdfReader OneBytePages.PdfWriter_write
    [mkSegment (Some "high") (Some (PagesList [1; 5; 8]))]
    OneBytePages.ten_pages (Value "scan.PDF")
  = inr {| zip_entries :=
             [("scan_part_1_pages_1-4.pdf",
               [Byte.x01; Byte.x02; Byte.x03; Byte.x04]);
              ("scan_part_2_pages_5-7.pdf", [Byte.x05; Byte.x06; Byte.x07]);
              ("scan_part_3_pages_8-10.pdf", [Byte.x08; Byte.x09; Byte.x0a])];
           attachment := "attachment; filename=scan_split_pdfs.zip" |}
  ∧ part_name_with_extension "scan.PDF" 1 1 4 = "scan_part_1_pages_1-4.PDF"
  ∧ split_filename "scan.PDF" 1 1 4 ≠ part_name_with_extension "scan.PDF" 1 1 4.
Proof. split_and!; [vm_compute; reflexivity..|vm_compute; discriminate]. Qed.

(** C7, as the code has it.  When the file is readable, its name is not
    [None], the collected pages are all at least 1, the base name has no NUL
    character, no part name is longer than 65535 bytes and the value of the
    Content-Disposition header can be encoded as latin-1, the archive is
    returned and has exactly one entry per derived range, in the order of
    the ranges; the entry of the range at position [idx], counted from 1,
    is named [{base_name}_part_{idx}_pages_{start}-{end}.pdf], whatever the
    extension of the source file, and holds the pages of that range.  When
    the source file's extension is [.pdf], this is the name with the
    source's extension.  The base name is the file name up to its last dot,
    and the whole file name when it has no dot. *)
Theorem archive_entries {Page} (PdfReader : bytes → Exception + list Page)
    (PdfWriter_write : list Page → bytes) (segs : list Segment)
    (content_ : bytes) (fname : py_field string) (original_filename : string)
    (pdf_pages : list Page) (raw_header : list N) :
  PdfReader content_ = inr pdf_pages →
  get_original_filename fname = inr original_filename →
  collect_high_confidence_pages segs ≠ [] →
  Forall (λ p, 1 ≤ p) (collect_high_confidence_pages segs) →
  NUL ∉ String.list_ascii_of_string (base_name original_filename) →
  (∀ ranges,
     Ranges.derive_ranges (collect_high_confidence_pages segs)
       (Z.of_nat (length pdf_pages)) = inr ranges →
     Forall (λ name, Z.of_nat (String.length name) ≤ 65535)
       (part_names original_filename ranges)) →
  encode_latin1 (content_disposition original_filename) = inr raw_header →
  ∃ ranges response,
    Ranges.derive_ranges (collect_high_confidence_pages segs)
      (Z.of_nat (length pdf_pages)) = inr ranges
    ∧ split_segments PdfReader PdfWriter_write segs content_ fname
      = inr response
    ∧ length (zip_entries response) = length ranges
    ∧ (∀ (i : nat) start end_,
         ranges !! i = Some (start, end_) →
         zip_entries response !! i
         = Some (base_name original_filename +:+ "_part_"
                   +:+ pretty (1 + Z.of_nat i) +:+ "_pages_" +:+ pretty start
                   +:+ "-" +:+ pretty end_ +:+ ".pdf",
                 PdfWriter_write (page_span pdf_pages start end_)))
    ∧ (original_extension original_filename = ".pdf" →
       ∀ (i : nat) start end_,
         ranges !! i = Some (start, end_) →
         (zip_entries response).*1 !! i
         = Some (part_name_with_extension original_filename
                   (1 + Z.of_nat i) start end_))
    ∧ (∀ stem ext,
         original_filename = stem +:+ "." +:+ ext →
         "."%char ∉ String.list_ascii_of_string ext →
         base_name original_filename = stem)
    ∧ ("."%char ∉ String.list_ascii_of_string original_filename →
       base_name original_filename = original_filename).
Proof.
  intros Hread Hname Hne Hpos Hnul Hlength Hheader.
  destruct (derive_ranges_inr _ (Z.of_nat (length pdf_pages)) Hne)
    as (first & rest & _ & Hderive).
  set (ranges := Ranges.leading_range first ++ _) in Hderive.
  specialize (Hlength ranges Hderive).
  pose proof (archive_writes_part_names _ _ Hnul Hlength) as Hwrites.
  exists ranges. eexists.
  split; [done|]. split; [by eapply split_segments_parts|].
  cbn [zip_entries].
  assert (∀ (i : nat) start end_,
            ranges !! i = Some (start, end_) →
            imap (archive_entry PdfWriter_write pdf_pages original_filename)
              ranges !! i
            = Some (split_filename original_filename (1 + Z.of_nat i)
                      start end_,
                    PdfWriter_write (page_span pdf_pages start end_)))
    as Hentry.
  { intros i start end_ Hi. rewrite list_lookup_imap, Hi. cbn.
    unfold archive_entry. cbn [fst snd].
    by rewrite cut_at_nul_split_filename. }
  split_and!.
  - by rewrite length_imap.
  - done.
  - intros Hext i start end_ Hi.
    rewrite list_lookup_fmap, (Hentry _ _ _ Hi). cbn.
    unfold part_name_with_extension, split_filename. by rewrite Hext.
  - intros stem ext -> Hext%rsplit_dot_head_None. unfold base_name.
    by rewrite rsplit_dot_head_app.
  - intros Hdot%rsplit_dot_head_None. unfold base_name. by rewrite Hdot.
Qed.

Lemma archive_entries_witness :
  ∃ ranges response,
    Ranges.derive_ranges
      (collect_high_confidence_pages
         [mkSegment (Some "high") (Some (PagesList [1; 5; 8]))]) 10
    = inr ranges
    ∧ split_segments OneBytePages.PdfReader OneBytePages.PdfWriter_write
        [mkSegment (Some "high") (Some (PagesList [1; 5; 8]))]
        OneBytePages.ten_pages (Value "scan.pdf") = inr response
    ∧ length (zip_entries response) = length ranges.
Proof.
  destruct (archive_entries OneBytePages.PdfReader OneBytePages.PdfWriter_write
              [mkSegment (Some "high") (Some (PagesList [1; 5; 8]))]
              OneBytePages.ten_pages (Value "scan.pdf") "scan.pdf"
              OneBytePages.ten_pages
              (code_points "attachment; filename=scan_split_pdfs.zip"))
    as (ranges & response & Hranges & Hresponse & Hlength & _).
  - reflexivity.
  - reflexivity.
  - discriminate.
  - repeat constructor; cbn; lia.
  - apply (bool_decide_unpack _). vm_compute. exact I.
  - intros ranges Hranges. vm_compute in Hranges.
    injection Hranges as <-. repeat constructor; vm_compute; discriminate.
  - vm_compute. reflexivity.
  - exists ranges, response. split; [exact Hranges|].
    split; [exact Hresponse|exact Hlength].
Defined.

(** * Further properties of the code *)

(** ** Which pages are collected *)

Lemma extend_with_segment_app acc segment :
  extend_with_segment acc segment = acc ++ extend_with_segment [] segment.
Proof.
  unfold extend_with_segment. case_bool_decide; [|by rewrite app_nil_r].
  destruct (default (PagesList []) (pages segment)) as [l|];
    [|by rewrite app_nil_r].
  case_bool_decide; [done|by rewrite app_nil_r].
Qed.

Lemma foldl_extend_with_segment acc segs :
  foldl extend_with_segment acc segs
  = acc ++ collect_high_confidence_pages segs.
Proof.
  unfold collect_high_confidence_pages. revert acc.
  induction segs as [|segment segs IH]; intros acc; [by rewrite app_nil_r|].
  cbn [foldl]. rewrite (IH (extend_with_segment acc segment)).
  rewrite (IH (extend_with_segment [] segment)).
  by rewrite extend_with_segment_app, (assoc_L (++)).
Qed.

Lemma elem_of_extend_with_segment segment p :
  p ∈ extend_with_segment [] segment ↔
  ∃ l, confidence_category segment = Some "high"
       ∧ pages segment = Some (PagesList l) ∧ p ∈ l.
Proof.
  unfold extend_with_segment. split.
  - case_bool_decide as Hhigh; [|by intros ?%elem_of_nil].
    destruct (pages segment) as [[l|]|]; cbn; try by intros ?%elem_of_nil.
    case_bool_decide; [|by intros ?%elem_of_nil]. eauto.
  - intros (l & Hhigh & Hpages & Hp).
    rewrite bool_decide_eq_true_2, Hpages by done. cbn.
    rewrite bool_decide_eq_true_2; [done|].
    destruct l; [by apply elem_of_nil in Hp|cbn; lia].
Qed.

(** X1.  A page is collected exactly when a segment of confidence category
    ["high"] lists it under ["pages"]: segments of another category, without
    the key or with a value that is no list contribute nothing. *)
Theorem elem_of_collect_high_confidence_pages (segs : list Segment) (p : Z) :
  p ∈ collect_high_confidence_pages segs ↔
  ∃ segment l,
    segment ∈ segs
    ∧ confidence_category segment = Some "high"
    ∧ pages segment = Some (PagesList l)
    ∧ p ∈ l.
Proof.
  induction segs as [|segment segs IH].
  - split; [by intros ?%elem_of_nil|].
    by intros (? & ? & ?%elem_of_nil & _).
  - unfold collect_high_confidence_pages. cbn [foldl].
    rewrite foldl_extend_with_segment, elem_of_app, IH,
      elem_of_extend_with_segment.
    split.
    + intros [(l & ? & ? & ?)|(segment' & l & ? & ? & ? & ?)].
      * exists segment, l. split_and!; [left|done..].
      * exists segment', l. split_and!; [by right|done..].
    + intros (segment' & l & [->|Hin]%elem_of_cons & ? & ? & ?).
      * left. eauto.
      * right. exists segment', l. eauto.
Qed.

(** ** The ranges depend on the set of pages only *)

Lemma sorted_set_ext (l1 l2 : list Z) :
  (∀ p, p ∈ l1 ↔ p ∈ l2) → Ranges.sorted_set l1 = Ranges.sorted_set l2.
Proof.
  intros Hext. apply (StronglySorted_unique_strong Z.lt).
  - intros x1 x2 _ _ ? ?. lia.
  - apply sorted_set_sorted.
  - apply sorted_set_sorted.
  - apply NoDup_Permutation.
    + apply StronglySorted_lt_NoDup, sorted_set_sorted.
    + apply StronglySorted_lt_NoDup, sorted_set_sorted.
    + intros p. by rewrite !elem_of_sorted_set.
Qed.

(** X2.  Two collections with the same pages, in whatever order and with
    whatever repetitions, give the same ranges. *)
Theorem derive_ranges_ext (l1 l2 : list Z) (total_pages : Z) :
  (∀ p, p ∈ l1 ↔ p ∈ l2) →
  Ranges.derive_ranges l1 total_pages = Ranges.derive_ranges l2 total_pages.
Proof.
  intros Hext. unfold Ranges.derive_ranges. by rewrite (sorted_set_ext l1 l2).
Qed.

Lemma derive_ranges_ext_witness :
  Ranges.derive_ranges [5; 1; 5; 8] 10 = Ranges.derive_ranges [8; 5; 1] 10.
Proof.
  apply derive_ranges_ext. intros p.
  rewrite !elem_of_cons, !elem_of_nil. tauto.
Defined.

(** ** How many ranges, and where they start and end *)

Lemma sorted_set_first_least (l : list Z) first rest :
  Ranges.sorted_set l = first :: rest →
  first ∈ l ∧ ∀ p, p ∈ l → first ≤ p.
Proof.
  intros Hs. split.
  - apply elem_of_sorted_set. rewrite Hs. left.
  - intros p Hp. apply elem_of_sorted_set in Hp. rewrite Hs in Hp.
    pose proof (sorted_set_sorted l) as Hsorted. rewrite Hs in Hsorted.
    apply StronglySorted_cons in Hsorted as [Hfirst _].
    rewrite Forall_forall in Hfirst.
    apply elem_of_cons in Hp as [->|Hp]; [lia|].
    specialize (Hfirst p Hp). lia.
Qed.

Lemma length_sorted_set (l : list Z) :
  length (Ranges.sorted_set l) = size (list_to_set l : gset Z).
Proof. unfold Ranges.sorted_set. by rewrite merge_sort_Permutation. Qed.

Lemma ranges_from_contiguous hs total_pages i r1 r2 :
  ranges_from hs total_pages !! i = Some r1 →
  ranges_from hs total_pages !! S i = Some r2 →
  r1.2 = r2.1 - 1.
Proof.
  revert i. induction hs as [|h tl IH]; intros i; [done|].
  destruct i as [|i]; [|apply IH].
  destruct tl as [|next tl']; [done|]. cbn. by intros [= <-] [= <-].
Qed.

Lemma ranges_from_last h tl total_pages :
  ∃ start, last (ranges_from (h :: tl) total_pages) = Some (start, total_pages).
Proof.
  revert h. induction tl as [|next tl IH]; intros h; [by eexists|].
  destruct (IH next) as [start Hlast]. exists start.
  change (ranges_from (h :: next :: tl) total_pages)
    with ((h, next - 1) :: ranges_from (next :: tl) total_pages).
  rewrite last_cons. by rewrite Hlast.
Qed.

(** X3.  Whatever integers are marked, the derived ranges start at the distinct
    marked pages in ascending order, after a range that starts at page 1
    when the least marked page is larger than 1; so there is one range per
    distinct marked page, plus one in that case.  Each range ends on the
    page before the next range starts and the last range ends at
    [total_pages]. *)
Theorem derive_ranges_shape (high_confidence_pages : list Z)
    (total_pages : Z) (ranges : list (Z * Z)) :
  Ranges.derive_ranges high_confidence_pages total_pages = inr ranges →
  ∃ first,
    first ∈ high_confidence_pages
    ∧ (∀ p, p ∈ high_confidence_pages → first ≤ p)
    ∧ ranges.*1
      = (if bool_decide (first > 1) then [1] else [])
          ++ Ranges.sorted_set high_confidence_pages
    ∧ length ranges
      = ((if bool_decide (first > 1)%Z then 1 else 0)
         + size (list_to_set high_confidence_pages : gset Z))%nat
    ∧ (∀ i r1 r2, ranges !! i = Some r1 → ranges !! S i = Some r2 →
         r1.2 = r2.1 - 1)
    ∧ ∃ start, last ranges = Some (start, total_pages).
Proof.
  intros Hderive.
  destruct high_confidence_pages as [|p0 ps] eqn:Hpages.
  { by rewrite derive_ranges_nil in Hderive. }
  rewrite <-Hpages in *.
  destruct (derive_ranges_inr high_confidence_pages total_pages)
    as (first & rest & Hs & Heq); [by rewrite Hpages|].
  assert (ranges = Ranges.leading_range first
                     ++ ranges_from (first :: rest) total_pages) as ->
    by congruence.
  destruct (sorted_set_first_least _ _ _ Hs) as [Hin Hleast].
  exists first. split_and!; [done..| | | |].
  - rewrite fmap_app, ranges_from_starts, Hs.
    unfold Ranges.leading_range. by case_bool_decide.
  - rewrite length_app, <-length_sorted_set, Hs.
    rewrite <-(ranges_from_starts (first :: rest) total_pages) at 2.
    rewrite length_fmap. unfold Ranges.leading_range. by case_bool_decide.
  - unfold Ranges.leading_range. case_bool_decide.
    + intros [|i] r1 r2; [|apply ranges_from_contiguous].
      cbn. intros [= <-] [= <-]. cbn. lia.
    + apply ranges_from_contiguous.
  - destruct (ranges_from_last first rest total_pages) as [start Hlast].
    exists start. rewrite last_app. by rewrite Hlast.
Qed.

Lemma derive_ranges_shape_witness :
  ∃ first,
    first ∈ [8; 2; 14; 2]
    ∧ (∀ p, p ∈ [8; 2; 14; 2] → first ≤ p)
    ∧ [(1, 1); (2, 7); (8, 13); (14, 10)].*1
      = (if bool_decide (first > 1) then [1] else [])
          ++ Ranges.sorted_set [8; 2; 14; 2]
    ∧ length [(1, 1); (2, 7); (8, 13); (14, 10)]
      = ((if bool_decide (first > 1)%Z then 1 else 0)
         + size (list_to_set [8; 2; 14; 2]%Z : gset Z))%nat
    ∧ (∀ i r1 r2,
         [(1, 1); (2, 7); (8, 13); (14, 10)] !! i = Some r1 →
         [(1, 1); (2, 7); (8, 13); (14, 10)] !! S i = Some r2 →
         r1.2 = r2.1 - 1)
    ∧ ∃ start, last [(1, 1); (2, 7); (8, 13); (14, 10)] = Some (start, 10).
Proof.
  apply (derive_ranges_shape [8; 2; 14; 2] 10). vm_compute. reflexivity.
Defined.

(** ** Marked pages after the last page of the document *)

Section spans.
Context {Page : Type}.
Implicit Types (pdf_pages : list Page).

Lemma ranges_from_page_spans pdf_pages h tl :
  StronglySorted Z.lt (h :: tl) → 1 ≤ h →
  concat ((λ r, page_span pdf_pages r.1 r.2)
            <$> ranges_from (h :: tl) (Z.of_nat (length pdf_pages)))
  = drop (Z.to_nat (h - 1)) pdf_pages.
Proof.
  revert h. induction tl as [|next tl IH]; intros h Hs Hh.
  - cbn. rewrite app_nil_r. unfold page_span. cbn.
    by rewrite Nat2Z.id, take_ge.
  - apply StronglySorted_cons in Hs as [Hnext Hs].
    apply Forall_cons in Hnext as [Hnext _].
    change (ranges_from (h :: next :: tl) (Z.of_nat (length pdf_pages)))
      with ((h, next - 1)
              :: ranges_from (next :: tl) (Z.of_nat (length pdf_pages))).
    rewrite fmap_cons. cbn [concat fst snd]. rewrite IH by (done || lia).
    unfold page_span. apply drop_take_drop. lia.
Qed.

Lemma leading_ranges_from_page_spans pdf_pages first rest :
  StronglySorted Z.lt (first :: rest) → 1 ≤ first →
  concat ((λ r, page_span pdf_pages r.1 r.2)
            <$> (Ranges.leading_range first
                   ++ ranges_from (first :: rest)
                        (Z.of_nat (length pdf_pages))))
  = pdf_pages.
Proof.
  intros Hs Hfirst.
  rewrite fmap_app, concat_app, ranges_from_page_spans by done.
  unfold Ranges.leading_range. case_bool_decide.
  - cbn. rewrite app_nil_r. unfold page_span. cbn. rewrite drop_0.
    apply take_drop.
  - cbn. replace (first - 1) with 0 by lia. apply drop_0.
Qed.

End spans.

(** X4.  Marked pages may lie after the last page: as long as every collected
    page is at least 1, the file is readable and has a name, the archive
    stores every part name and the value of the Content-Disposition header
    can be encoded as latin-1, the archive is returned and the page lists
    given to the writers, one after the other, are exactly the pages of the
    document. *)
Theorem split_segments_keeps_every_page {Page}
    (PdfReader : bytes → Exception + list Page)
    (PdfWriter_write : list Page → bytes) (segs : list Segment)
    (content_ : bytes) (fname : py_field string) (original_filename : string)
    (pdf_pages : list Page) (raw_header : list N) :
  PdfReader content_ = inr pdf_pages →
  get_original_filename fname = inr original_filename →
  collect_high_confidence_pages segs ≠ [] →
  Forall (λ p, 1 ≤ p) (collect_high_confidence_pages segs) →
  (∀ ranges,
     Ranges.derive_ranges (collect_high_confidence_pages segs)
       (Z.of_nat (length pdf_pages)) = inr ranges →
     Forall archive_writes (part_names original_filename ranges)) →
  encode_latin1 (content_disposition original_filename) = inr raw_header →
  ∃ response (written : list (list Page)),
    split_segments PdfReader PdfWriter_write segs content_ fname
    = inr response
    ∧ (zip_entries response).*2 = PdfWriter_write <$> written
    ∧ concat written = pdf_pages.
Proof.
  intros Hread Hname Hne Hpos Hwrites Hheader.
  destruct (derive_ranges_inr _ (Z.of_nat (length pdf_pages)) Hne)
    as (first & rest & Hs & Hderive).
  specialize (Hwrites _ Hderive).
  eexists. exists ((λ r, page_span pdf_pages r.1 r.2)
                     <$> (Ranges.leading_range first
                            ++ ranges_from (first :: rest)
                                 (Z.of_nat (length pdf_pages)))).
  split; [by eapply split_segments_parts|]. split.
  - cbn [zip_entries].
    rewrite <-list_fmap_compose, fmap_imap.
    apply list_eq. intros i. by rewrite list_lookup_imap, list_lookup_fmap.
  - apply leading_ranges_from_page_spans.
    + rewrite <-Hs. apply sorted_set_sorted.
    + destruct (sorted_set_first_least _ _ _ Hs) as [Hin _].
      rewrite Forall_forall in Hpos. by apply Hpos.
Qed.

Lemma split_segments_keeps_every_page_witness :
  ∃ response (written : list (list Byte.byte)),
    split_segments OneBytePages.PdfReader OneBytePages.PdfWriter_write
      [mkSegment (Some "high") (Some (PagesList [2; 6]))]
      [Byte.x01; Byte.x02; Byte.x03] (Value "scan.pdf")
    = inr response
    ∧ (zip_entries response).*2 = OneBytePages.PdfWriter_write <$> written
    ∧ concat written = [Byte.x01; Byte.x02; Byte.x03].
Proof.
  apply (split_segments_keeps_every_page OneBytePages.PdfReader
           OneBytePages.PdfWriter_write
           [mkSegment (Some "high") (Some (PagesList [2; 6]))]
           [Byte.x01; Byte.x02; Byte.x03] (Value "scan.pdf") "scan.pdf"
           [Byte.x01; Byte.x02; Byte.x03]
           (code_points "attachment; filename=scan_split_pdfs.zip")).
  - reflexivity.
  - reflexivity.
  - discriminate.
  - repeat constructor; cbn; lia.
  - intros ranges Hranges. vm_compute in Hranges.
    injection Hranges as <-.
    repeat constructor; vm_compute; discriminate.
  - vm_compute. reflexivity.
Defined.

(** ** Marked pages that are valid: no empty part *)

Lemma length_le_length_concat {A} (ls : list (list A)) :
  Forall (λ l, l ≠ []) ls → (length ls ≤ length (concat ls))%nat.
Proof.
  induction 1 as [|l ls Hl _ IH]; [done|].
  cbn. rewrite length_app. destruct l; [done|]. cbn. lia.
Qed.

(** X5.  With a non-empty collection of marked pages within the document, every
    derived range gets at least one page, so no part of the archive is
    empty and there are at most as many parts as the document has pages. *)
Theorem parts_are_not_empty {Page} (pdf_pages : list Page)
    (high_confidence_pages : list Z) :
  let total_pages := Z.of_nat (length pdf_pages) in
  high_confidence_pages ≠ [] →
  Forall (λ p, 1 ≤ p ≤ total_pages) high_confidence_pages →
  ∃ (ranges : list (Z * Z)) (written : list (list Page)),
    Ranges.derive_ranges high_confidence_pages total_pages = inr ranges
    ∧ Forall2 (λ r w, copy_pages pdf_pages total_pages r.1 r.2 = inr w
                      ∧ Z.of_nat (length w) = range_size r
                      ∧ w ≠ [])
        ranges written
    ∧ (length written ≤ length pdf_pages)%nat.
Proof.
  intros total_pages Hne Hb.
  destruct (derive_ranges_inr _ total_pages Hne)
    as (first & rest & Hs & Hderive).
  set (ranges := Ranges.leading_range first
                   ++ ranges_from (first :: rest) total_pages) in *.
  assert (chain 1 ranges total_pages) as Hc.
  { apply chain_leading_ranges_from; rewrite <-Hs;
      [apply sorted_set_sorted|by apply sorted_set_Forall]. }
  destruct (chain_bounds _ _ _ Hc) as [_ Hall].
  assert (Forall (λ r, copy_pages pdf_pages total_pages r.1 r.2
                       = inr (page_span pdf_pages r.1 r.2)
                       ∧ Z.of_nat (length (page_span pdf_pages r.1 r.2))
                         = range_size r
                       ∧ page_span pdf_pages r.1 r.2 ≠ []) ranges) as Hparts.
  { eapply Forall_impl; [exact Hall|]. intros r (H1 & Hle & Hend).
    assert (Z.of_nat (length (page_span pdf_pages r.1 r.2)) = range_size r)
      as Hlen.
    { rewrite length_page_span by done. unfold range_size.
      fold total_pages. lia. }
    split_and!; [by apply copy_pages_span|done|].
    intros Hnil. rewrite Hnil in Hlen. unfold range_size in Hlen.
    cbn in Hlen. lia. }
  exists ranges, ((λ r, page_span pdf_pages r.1 r.2) <$> ranges).
  split_and!; [done| |].
  - by apply Forall2_fmap_r, Forall_Forall2_diag.
  - etrans; [apply length_le_length_concat|].
    + apply Forall_fmap. eapply Forall_impl; [exact Hparts|].
      by intros r (_ & _ & ?).
    + rewrite (chain_page_spans pdf_pages 1 ranges total_pages)
        by (done || lia).
      unfold page_span. rewrite length_drop, length_take. lia.
Qed.

Lemma parts_are_not_empty_witness :
  ∃ (ranges : list (Z * Z)) (written : list (list Byte.byte)),
    Ranges.derive_ranges [8; 1; 5] 10 = inr ranges
    ∧ Forall2 (λ r w, copy_pages OneBytePages.ten_pages 10 r.1 r.2 = inr w
                      ∧ Z.of_nat (length w) = range_size r
                      ∧ w ≠ [])
        ranges written
    ∧ (length written ≤ 10)%nat.
Proof.
  apply (parts_are_not_empty OneBytePages.ten_pages [8; 1; 5]).
  - discriminate.
  - repeat constructor; cbn; lia.
Defined.

(** ** Marked pages below 1 *)

Section negative.
Context {Page : Type}.
Implicit Types (pdf_pages : list Page).

(** X6.  A range whose start is 0 or negative, but larger than minus the page
    count, raises nothing: the indices below 0 are counted from the end of
    the document.  The part begins with the pages read at the indices
    [start - 1] to [min(end, 0) - 1], which are the [min(end, 0) - start + 1]
    pages from page [total_pages + start] on, followed by the pages 1 to
    [end] of the document.  When [end] is at least 0 the part begins with
    the last [1 - start] pages of the document; when [end] is negative it
    has no page from the front of the document. *)
Theorem copy_pages_wraps_around pdf_pages (start end_ : Z) :
  - Z.of_nat (length pdf_pages) < start → start ≤ 0 →
  copy_pages pdf_pages (Z.of_nat (length pdf_pages)) start end_
  = inr (take (Z.to_nat (Z.min end_ 0 - start + 1))
           (drop (Z.to_nat (Z.of_nat (length pdf_pages) + start - 1))
              pdf_pages)
           ++ take (Z.to_nat end_) pdf_pages)
  ∧ (0 ≤ end_ →
     copy_pages pdf_pages (Z.of_nat (length pdf_pages)) start end_
     = inr (drop (Z.to_nat (Z.of_nat (length pdf_pages) + start - 1)) pdf_pages
              ++ take (Z.to_nat end_) pdf_pages))
  ∧ (end_ < 0 →
     copy_pages pdf_pages (Z.of_nat (length pdf_pages)) start end_
     = inr (take (Z.to_nat (end_ - start + 1))
              (drop (Z.to_nat (Z.of_nat (length pdf_pages) + start - 1))
                 pdf_pages))).
Proof.
  intros Hlow Hstart.
  set (total_pages := Z.of_nat (length pdf_pages)).
  assert (0 ≤ end_ →
          copy_pages pdf_pages total_pages start end_
          = inr (drop (Z.to_nat (total_pages + start - 1)) pdf_pages
                   ++ take (Z.to_nat end_) pdf_pages)) as Hfront.
  { intros Hend. unfold copy_pages, py_range.
    set (stop := Z.min end_ total_pages).
    replace (stop - (start - 1)) with ((1 - start) + stop) by lia.
    rewrite seqZ_app by lia.
    replace (start - 1 + (1 - start)) with 0 by lia.
    rewrite mapE_app.
    replace (1 - start) with (Z.of_nat (Z.to_nat (1 - start))) by lia.
    rewrite mapE_getitem_seqZ_negative by (subst total_pages; lia).
    cbn [bindE].
    replace stop with (Z.of_nat (Z.to_nat stop)) by lia.
    rewrite mapE_getitem_seqZ by (subst stop total_pages; lia).
    cbn [bindE]. rewrite drop_0. do 2 f_equal.
    - rewrite take_ge; [f_equal; subst total_pages; lia|].
      rewrite length_drop. lia.
    - subst stop. destruct (decide (end_ ≤ total_pages)).
      + by rewrite Z.min_l by done.
      + rewrite Z.min_r by lia. subst total_pages.
        by rewrite Nat2Z.id, !take_ge by lia. }
  assert (end_ < 0 →
          copy_pages pdf_pages total_pages start end_
          = inr (take (Z.to_nat (end_ - start + 1))
                   (drop (Z.to_nat (total_pages + start - 1)) pdf_pages)))
    as Hback.
  { intros Hend. unfold copy_pages, py_range.
    rewrite Z.min_l by lia.
    destruct (decide (end_ - (start - 1) ≤ 0)) as [Hempty|Hsome].
    - rewrite seqZ_nil by lia.
      by replace (Z.to_nat (end_ - start + 1)) with 0%nat by lia.
    - replace (end_ - (start - 1))
        with (Z.of_nat (Z.to_nat (end_ - start + 1))) by lia.
      rewrite mapE_getitem_seqZ_negative by (subst total_pages; lia).
      do 3 f_equal. subst total_pages. lia. }
  split; [|done].
  destruct (decide (0 ≤ end_)) as [Hend|Hend].
  - rewrite Hfront by done. do 2 f_equal.
    rewrite take_ge; [done|]. rewrite length_drop. lia.
  - rewrite Hback by lia.
    replace (Z.to_nat end_) with 0%nat by lia.
    rewrite take_0, app_nil_r. do 2 f_equal. lia.
Qed.

End negative.

Lemma copy_pages_wraps_around_witness :
  copy_pages [Byte.x01; Byte.x02; Byte.x03; Byte.x04; Byte.x05] 5 (-2) (-2)
  = inr [Byte.x03]
  ∧ copy_pages [Byte.x01; Byte.x02; Byte.x03] 3 0 2
    = inr ([Byte.x03] ++ [Byte.x01; Byte.x02]).
Proof.
  split.
  - assert (- 5 < -2) as Hlow by lia. assert (-2 ≤ 0) as Hstart by lia.
    exact (proj1 (copy_pages_wraps_around
                    [Byte.x01; Byte.x02; Byte.x03; Byte.x04; Byte.x05]
                    (-2) (-2) Hlow Hstart)).
  - assert (- 3 < 0) as Hlow by lia. assert (0 ≤ 0) as Hstart by lia.
    assert (0 ≤ 2) as Hend by lia.
    exact (proj1 (proj2 (copy_pages_wraps_around
                           [Byte.x01; Byte.x02; Byte.x03] 0 2 Hlow Hstart))
             Hend).
Defined.

(** X7.  A collected page at or below minus the page count makes the endpoint
    answer 500: the first read of the page-copy loop is outside the
    document, whatever the other pages and the file name are. *)
Theorem split_segments_page_below_document {Page}
    (PdfReader : bytes → Exception + list Page)
    (PdfWriter_write : list Page → bytes) (segs : list Segment)
    (content_ : bytes) (fname : py_field string) (pdf_pages : list Page)
    (p : Z) :
  PdfReader content_ = inr pdf_pages →
  p ∈ collect_high_confidence_pages segs →
  p ≤ - Z.of_nat (length pdf_pages) →
  split_segments PdfReader PdfWriter_write segs content_ fname
  = inl (mkHTTPException 500
           "Error splitting PDF: Sequence index out of range").
Proof.
  intros Hread Hp Hlow.
  assert (collect_high_confidence_pages segs ≠ []) as Hne.
  { intros Hnil. rewrite Hnil in Hp. by apply elem_of_nil in Hp. }
  destruct (derive_ranges_inr _ (Z.of_nat (length pdf_pages)) Hne)
    as (first & rest & Hs & Hderive).
  destruct (sorted_set_first_least _ _ _ Hs) as [_ Hleast].
  specialize (Hleast p Hp).
  pose proof (sorted_set_sorted (collect_high_confidence_pages segs))
    as Hsorted.
  rewrite Hs in Hsorted. apply StronglySorted_cons in Hsorted as [Hnext _].
  unfold split_segments. rewrite bool_decide_eq_false_2 by done.
  unfold try_split. rewrite Hread. cbn [bindE].
  unfold Ranges.derive_ranges in Hderive. rewrite Hderive. cbn [bindE].
  unfold Ranges.leading_range. rewrite bool_decide_eq_false_2 by lia.
  cbn [app ranges_from]. unfold slice, enumerate.
  rewrite imap_cons. cbn [mapE]. unfold split_one at 1.
  rewrite copy_pages_below; [done|lia|].
  destruct rest as [|next rest']; [lia|].
  apply Forall_cons in Hnext as [Hnext _]. lia.
Qed.

Lemma split_segments_page_below_document_witness :
  split_segments OneBytePages.PdfReader OneBytePages.PdfWriter_write
    [mkSegment (Some "high") (Some (PagesList [2; -3]))]
    [Byte.x01; Byte.x02; Byte.x03] (Value "scan.pdf")
  = inl (mkHTTPException 500
           "Error splitting PDF: Sequence index out of range").
Proof.
  apply (split_segments_page_below_document OneBytePages.PdfReader
           OneBytePages.PdfWriter_write _ _ _
           [Byte.x01; Byte.x02; Byte.x03] (-3)).
  - reflexivity.
  - right; left.
  - cbn. lia.
Defined.

(** ** When the archive is returned *)

(** X8.  When every collected page is at least 1, the archive is returned
    exactly when some page is collected, the stored file is readable, the
    stored file name is not [None], the archive stores the name of every
    part, and the value of the Content-Disposition header can be encoded as
    latin-1.  An unreadable file is answered with a 500 that carries the
    reader's message, and a header that cannot be encoded with a 500 that
    carries the message of the codec. *)
Theorem split_segments_succeeds_iff {Page}
    (PdfReader : bytes → Exception + list Page)
    (PdfWriter_write : list Page → bytes) (segs : list Segment)
    (content_ : bytes) (fname : py_field string) :
  Forall (λ p, 1 ≤ p) (collect_high_confidence_pages segs) →
  ((∃ response,
      split_segments PdfReader PdfWriter_write segs content_ fname
      = inr response)
   ↔ collect_high_confidence_pages segs ≠ []
     ∧ fname ≠ PyNone
     ∧ ∃ pdf_pages original_filename ranges raw_header,
         PdfReader content_ = inr pdf_pages
         ∧ get_original_filename fname = inr original_filename
         ∧ Ranges.derive_ranges (collect_high_confidence_pages segs)
             (Z.of_nat (length pdf_pages)) = inr ranges
         ∧ Forall archive_writes (part_names original_filename ranges)
         ∧ encode_latin1 (content_disposition original_filename)
           = inr raw_header)
  ∧ (∀ e, collect_high_confidence_pages segs ≠ [] →
          PdfReader content_ = inl e →
          split_segments PdfReader PdfWriter_write segs content_ fname
          = inl (mkHTTPException 500
                   ("Error splitting PDF: " +:+ str_exc e)))
  ∧ (∀ pdf_pages original_filename ranges e,
       PdfReader content_ = inr pdf_pages →
       get_original_filename fname = inr original_filename →
       Ranges.derive_ranges (collect_high_confidence_pages segs)
         (Z.of_nat (length pdf_pages)) = inr ranges →
       Forall archive_writes (part_names original_filename ranges) →
       encode_latin1 (content_disposition original_filename) = inl e →
       split_segments PdfReader PdfWriter_write segs content_ fname
       = inl (mkHTTPException 500
                ("Error splitting PDF: " +:+ str_exc e))).
Proof.
  intros Hpos. split_and!; [split|..].
  - intros [response Hresponse].
    destruct (split_segments_inv _ _ _ _ _ _ Hpos Hresponse)
      as (pdf_pages & original_filename & ranges & raw_header
          & Hread & Hname & Hderive & Hwrites & Hheader).
    split_and!.
    + intros Hnil. by rewrite Hnil, derive_ranges_nil in Hderive.
    + by intros ->.
    + by exists pdf_pages, original_filename, ranges, raw_header.
  - intros (_ & _ & pdf_pages & original_filename & ranges & raw_header
            & Hread & Hname & Hderive & Hwrites & Hheader).
    eexists. by eapply split_segments_parts.
  - intros e Hne Hread. unfold split_segments.
    rewrite bool_decide_eq_false_2 by done.
    unfold try_split. by rewrite Hread.
  - intros pdf_pages original_filename ranges e
      Hread Hname Hderive Hwrites Hheader.
    unfold split_segments. rewrite bool_decide_eq_false_2.
    2: { intros Hnil. by rewrite Hnil, derive_ranges_nil in Hderive. }
    unfold try_split. rewrite Hread. cbn [bindE].
    pose proof (derive_ranges_starts _ _ _ Hderive Hpos) as Hstart.
    unfold Ranges.derive_ranges in Hderive. rewrite Hderive. cbn [bindE].
    rewrite (slice_parts _ _ _ original_filename) by done.
    cbn [bindE]. rewrite bundle_parts by done. cbn [bindE].
    rewrite Hname. cbn [bindE]. by rewrite Hheader.
Qed.

Lemma split_segments_succeeds_iff_witness :
  ∃ response,
    split_segments OneBytePages.PdfReader OneBytePages.PdfWriter_write
      [mkSegment (Some "high") (Some (PagesList [3]))]
      OneBytePages.ten_pages Absent
    = inr response.
Proof.
  assert (Forall (λ p, 1 ≤ p)
            (collect_high_confidence_pages
               [mkSegment (Some "high") (Some (PagesList [3]))])) as Hpos
    by (repeat constructor; cbn; lia).
  apply (proj1 (split_segments_succeeds_iff OneBytePages.PdfReader
                  OneBytePages.PdfWriter_write _ OneBytePages.ten_pages
                  Absent Hpos)).
  split_and!; [discriminate|discriminate|].
  exists OneBytePages.ten_pages, "document.pdf", [(1, 2); (3, 10)],
    (code_points "attachment; filename=document_split_pdfs.zip").
  split_and!; [reflexivity|reflexivity|vm_compute; reflexivity|
               |vm_compute; reflexivity].
  repeat constructor; vm_compute; discriminate.
Defined.

(** ** The base name of a file *)

Section base_name.
Implicit Types (s stem ext : string).

(** X9.  The base name is the file name up to its last dot: for a name
    [stem.ext] whose extension has no dot it is [stem], also when [stem]
    itself has dots or is empty, and a name without a dot is its own base
    name. *)
Theorem base_name_stem stem ext :
  "."%char ∉ String.list_ascii_of_string ext →
  base_name (stem +:+ "." +:+ ext) = stem ∧ base_name ext = ext.
Proof.
  intros Hext%rsplit_dot_head_None. unfold base_name.
  by rewrite rsplit_dot_head_app, Hext.
Qed.

End base_name.

Lemma base_name_stem_witness :
  base_name ("invoice.2024" +:+ "." +:+ "pdf") = "invoice.2024"
  ∧ base_name "pdf" = "pdf".
Proof.
  apply base_name_stem. cbn.
  rewrite !not_elem_of_cons. split_and!; [discriminate..|apply not_elem_of_nil].
Defined.

(** ** The names in the archive are distinct *)

(** X10.  Whenever the endpoint returns an archive for a file whose base name
    has no NUL character, no two of its entries have the same name: the
    names carry the position of their range.  (The archive cuts a name at
    its first NUL, so the entries of a base name with a NUL share one
    name.) *)
Theorem zip_entry_names_distinct {Page}
    (PdfReader : bytes → Exception + list Page)
    (PdfWriter_write : list Page → bytes) (segs : list Segment)
    (content_ : bytes) (fname : py_field string) (original_filename : string)
    (response : StreamingResponse) :
  get_original_filename fname = inr original_filename →
  NUL ∉ String.list_ascii_of_string (base_name original_filename) →
  split_segments PdfReader PdfWriter_write segs content_ fname = inr response →
  NoDup (zip_entries response).*1.
Proof.
  intros Hname Hnul. unfold split_segments. case_bool_decide; [done|].
  destruct (try_split _ _ _ _ _) as [e|response'] eqn:Htry; [done|].
  intros [= <-]. unfold try_split in Htry.
  destruct (PdfReader content_) as [e|pdf_pages]; [done|]. cbn [bindE] in Htry.
  destruct (Ranges.split_ranges _ _) as [e|rs]; [done|]. cbn [bindE] in Htry.
  destruct (slice _ _ _ _ _) as [e|split_pdfs] eqn:Hslice; [done|].
  cbn [bindE] in Htry.
  destruct (bundle split_pdfs) as [e|entries] eqn:Hbundle; [done|].
  cbn [bindE] in Htry. rewrite Hname in Htry. cbn [bindE] in Htry.
  destruct (encode_latin1 _) as [e|raw_header]; [done|].
  cbn [bindE] in Htry. injection Htry as <-. cbn [zip_entries].
  apply bundle_inv in Hbundle as [_ ->].
  apply mapE_inr_Forall2 in Hslice.
  apply NoDup_alt. intros i j x Hi Hj.
  rewrite !list_lookup_fmap in Hi, Hj.
  destruct (split_pdfs !! i) as [pdf_i|] eqn:Hpi; [|done].
  destruct (split_pdfs !! j) as [pdf_j|] eqn:Hpj; [|done].
  cbn in Hi, Hj. injection Hi as <-. injection Hj as Hj.
  destruct (Forall2_lookup_r _ _ _ _ _ Hslice Hpi) as ([idx_i [si ei]] & Hei & Hsi).
  destruct (Forall2_lookup_r _ _ _ _ _ Hslice Hpj) as ([idx_j [sj ej]] & Hej & Hsj).
  unfold enumerate in Hei, Hej.
  rewrite list_lookup_imap in Hei, Hej.
  destruct (rs !! i) as [ri|]; [|done]. destruct (rs !! j) as [rj|]; [|done].
  cbn in Hei, Hej. injection Hei as Hidx_i _. injection Hej as Hidx_j _.
  unfold split_one in Hsi, Hsj.
  destruct (copy_pages pdf_pages _ si ei); [done|].
  destruct (copy_pages pdf_pages _ sj ej); [done|].
  cbn in Hsi, Hsj. rewrite Hname in Hsi, Hsj. cbn in Hsi, Hsj.
  injection Hsi as <-. injection Hsj as <-. cbn [filename] in Hj.
  rewrite !cut_at_nul_split_filename in Hj by done.
  apply split_filename_inj in Hj. lia.
Qed.

Lemma zip_entry_names_distinct_witness :
  NoDup
    [("scan_part_1_pages_1-4.pdf", [Byte.x01; Byte.x02; Byte.x03; Byte.x04]);
     ("scan_part_2_pages_5-7.pdf", [Byte.x05; Byte.x06; Byte.x07]);
     ("scan_part_3_pages_8-10.pdf", [Byte.x08; Byte.x09; Byte.x0a])].*1.
Proof.
  apply (zip_entry_names_distinct OneBytePages.PdfReader
           OneBytePages.PdfWriter_write
           [mkSegment (Some "high") (Some (PagesList [1; 5; 8]))]
           OneBytePages.ten_pages (Value "scan.PDF") "scan.PDF"
           {| zip_entries :=
                [("scan_part_1_pages_1-4.pdf",
                  [Byte.x01; Byte.x02; Byte.x03; Byte.x04]);
                 ("scan_part_2_pages_5-7.pdf", [Byte.x05; Byte.x06; Byte.x07]);
                 ("scan_part_3_pages_8-10.pdf",
                  [Byte.x08; Byte.x09; Byte.x0a])];
              attachment := "attachment; filename=scan_split_pdfs.zip" |}).
  - reflexivity.
  - apply (bool_decide_unpack _). vm_compute. exact I.
  - vm_compute. reflexivity.
Defined.

(** ** Job details *)

Section job_details.
Implicit Types (fetch : string → string → option RemoteJob)
  (jobs_storage : gmap string StoredJob) (stored : StoredJob).

Lemma refresh_job_frame llamaindex_job stored :
  job_id_key (refresh_job llamaindex_job stored) = job_id_key stored
  ∧ llamaindex_job_id (refresh_job llamaindex_job stored)
    = llamaindex_job_id stored
  ∧ created_at (refresh_job llamaindex_job stored) = created_at stored
  ∧ file_id (refresh_job llamaindex_job stored) = file_id stored
  ∧ original_file_content (split_keys (refresh_job llamaindex_job stored))
    = original_file_content (split_keys stored)
  ∧ job_filename (split_keys (refresh_job llamaindex_job stored))
    = job_filename (split_keys stored).
Proof. unfold refresh_job. by destruct (_ && _). Qed.

Lemma fetch_latest_frame fetch api_key stored :
  job_id_key (fetch_latest fetch api_key stored) = job_id_key stored
  ∧ llamaindex_job_id (fetch_latest fetch api_key stored)
    = llamaindex_job_id stored
  ∧ created_at (fetch_latest fetch api_key stored) = created_at stored
  ∧ file_id (fetch_latest fetch api_key stored) = file_id stored
  ∧ original_file_content (split_keys (fetch_latest fetch api_key stored))
    = original_file_content (split_keys stored)
  ∧ job_filename (split_keys (fetch_latest fetch api_key stored))
    = job_filename (split_keys stored).
Proof.
  unfold fetch_latest.
  destruct (llamaindex_job_id stored) as [[|c s]|] eqn:Hid;
    [by rewrite Hid| |by rewrite Hid].
  destruct (fetch api_key (String c s)); [|by rewrite Hid].
  rewrite <-Hid. apply refresh_job_frame.
Qed.

Lemma get_default_idemp field default_ :
  get_default field (get_default field default_) = get_default field default_.
Proof. by destruct field. Qed.

Lemma refresh_job_idemp llamaindex_job stored :
  refresh_job llamaindex_job (refresh_job llamaindex_job stored)
  = refresh_job llamaindex_job stored.
Proof.
  unfold refresh_job.
  destruct (bool_decide (remote_status llamaindex_job = Value "completed")
            && bool_decide (is_Some (remote_result llamaindex_job)));
    cbn; rewrite get_default_idemp; [done|].
  by case_bool_decide.
Qed.

Lemma fetch_latest_idemp fetch api_key stored :
  fetch_latest fetch api_key (fetch_latest fetch api_key stored)
  = fetch_latest fetch api_key stored.
Proof.
  destruct (fetch_latest_frame fetch api_key stored) as (_ & Hid & _).
  unfold fetch_latest at 1. rewrite Hid. unfold fetch_latest.
  destruct (llamaindex_job_id stored) as [[|c s]|]; [done| |done].
  destruct (fetch api_key (String c s)); [apply refresh_job_idemp|done].
Qed.

End job_details.

(** X11.  A call of [get_job_details] neither adds nor removes a job; it answers
    404 exactly for an unknown job id, and then leaves the storage as it
    is. *)
Theorem get_job_details_keeps_jobs
    (fetch : string → string → option RemoteJob) (api_key : string)
    (jobs_storage : gmap string StoredJob) (job_id : string) :
  dom (get_job_details fetch api_key jobs_storage job_id).1 = dom jobs_storage
  ∧ (jobs_storage !! job_id = None
     ↔ (get_job_details fetch api_key jobs_storage job_id).2
       = inl (RaisedHTTP (mkHTTPException 404 "Job not found")))
  ∧ (jobs_storage !! job_id = None →
     (get_job_details fetch api_key jobs_storage job_id).1 = jobs_storage).
Proof.
  unfold get_job_details.
  destruct (jobs_storage !! job_id) as [stored|] eqn:Hjob; cbn.
  - split_and!; [|split; [done|]|done].
    + rewrite dom_insert_L.
      apply subseteq_union_1_L, singleton_subseteq_l, elem_of_dom. eauto.
    + unfold job_details. by destruct (status _).
  - done.
Qed.

Lemma get_job_details_keeps_jobs_witness :
  (get_job_details (λ _ _, None) "key"
     {[ "job-1" := mkStoredJob "job-1" None "2024-01-01" None None
                     job_with_segment_without_pages ]} "job-2").1
  = {[ "job-1" := mkStoredJob "job-1" None "2024-01-01" None None
                    job_with_segment_without_pages ]}.
Proof.
  apply (get_job_details_keeps_jobs (λ _ _, None) "key"
           {[ "job-1" := mkStoredJob "job-1" None "2024-01-01" None None
                           job_with_segment_without_pages ]} "job-2").
  by apply lookup_singleton_ne.
Defined.

Lemma get_job_details_changes
    (fetch : string → string → option RemoteJob) (api_key : string)
    (jobs_storage : gmap string StoredJob) (job_id job_id' : string)
    (stored : StoredJob) :
  jobs_storage !! job_id' = Some stored →
  ∃ stored',
    (get_job_details fetch api_key jobs_storage job_id).1 !! job_id'
    = Some stored'
    ∧ job_id_key stored' = job_id_key stored
    ∧ llamaindex_job_id stored' = llamaindex_job_id stored
    ∧ created_at stored' = created_at stored
    ∧ file_id stored' = file_id stored
    ∧ original_file_content (split_keys stored')
      = original_file_content (split_keys stored)
    ∧ job_filename (split_keys stored') = job_filename (split_keys stored)
    ∧ (job_id' ≠ job_id → stored' = stored).
Proof.
  intros Hstored. unfold get_job_details.
  destruct (jobs_storage !! job_id) as [asked|] eqn:Hjob; cbn.
  - destruct (decide (job_id' = job_id)) as [->|Hne].
    + rewrite lookup_insert_eq. eexists. split; [done|].
      assert (asked = stored) as -> by congruence.
      destruct (fetch_latest_frame fetch api_key stored)
        as (? & ? & ? & ? & ? & ?).
      split_and!; done.
    + rewrite lookup_insert_ne by done. exists stored. split_and!; done.
  - exists stored. split_and!; done.
Qed.

(** X12.  A call changes at most the job asked for, and of that job at most the
    status, the result and the error message: the stored file, its name,
    the ids and the creation time of every job stay as they are. *)
Theorem get_job_details_frame
    (fetch : string → string → option RemoteJob) (api_key : string)
    (jobs_storage : gmap string StoredJob) (job_id job_id' : string)
    (stored : StoredJob) :
  jobs_storage !! job_id' = Some stored →
  ∃ stored',
    (get_job_details fetch api_key jobs_storage job_id).1 !! job_id'
    = Some stored'
    ∧ job_id_key stored' = job_id_key stored
    ∧ llamaindex_job_id stored' = llamaindex_job_id stored
    ∧ created_at stored' = created_at stored
    ∧ file_id stored' = file_id stored
    ∧ original_file_content (split_keys stored')
      = original_file_content (split_keys stored)
    ∧ job_filename (split_keys stored') = job_filename (split_keys stored)
    ∧ (job_id' ≠ job_id → stored' = stored).
Proof. apply get_job_details_changes. Qed.

Lemma get_job_details_frame_witness :
  ∃ stored',
    (get_job_details (λ _ _, None) "key"
       {[ "job-1" := mkStoredJob "job-1" None "2024-01-01" None None
                       job_with_segment_without_pages ]} "job-1").1
      !! "job-1"
    = Some stored'
    ∧ original_file_content (split_keys stored')
      = original_file_content job_with_segment_without_pages.
Proof.
  destruct (get_job_details_frame (λ _ _, None) "key"
              {[ "job-1" := mkStoredJob "job-1" None "2024-01-01" None None
                              job_with_segment_without_pages ]}
              "job-1" "job-1"
              (mkStoredJob "job-1" None "2024-01-01" None None
                 job_with_segment_without_pages))
    as (stored' & Hlookup & _ & _ & _ & _ & Hfile & _).
  - apply lookup_singleton_eq.
  - exists stored'. split; [exact Hlookup|exact Hfile].
Defined.

(** X13.  When the job has no remote id, or the remote service gives no answer,
    the call changes nothing and reports the job as it is stored. *)
Theorem get_job_details_without_answer
    (fetch : string → string → option RemoteJob) (api_key : string)
    (jobs_storage : gmap string StoredJob) (job_id : string)
    (stored : StoredJob) :
  jobs_storage !! job_id = Some stored →
  (llamaindex_job_id stored = None
   ∨ llamaindex_job_id stored = Some ""
   ∨ ∃ id, llamaindex_job_id stored = Some id ∧ fetch api_key id = None) →
  get_job_details fetch api_key jobs_storage job_id
  = (jobs_storage, job_details stored).
Proof.
  intros Hjob Hno. unfold get_job_details. rewrite Hjob.
  assert (fetch_latest fetch api_key stored = stored) as ->.
  { unfold fetch_latest.
    destruct Hno as [->|[->|(id & -> & Hfetch)]]; [done..|].
    destruct id; [done|]. by rewrite Hfetch. }
  by rewrite insert_id.
Qed.

Lemma get_job_details_without_answer_witness :
  get_job_details (λ _ _, None) "key"
    {[ "job-1" := mkStoredJob "job-1" (Some "remote-1") "2024-01-01" None None
                    job_with_segment_without_pages ]} "job-1"
  = ({[ "job-1" := mkStoredJob "job-1" (Some "remote-1") "2024-01-01" None
                     None job_with_segment_without_pages ]},
     job_details
       (mkStoredJob "job-1" (Some "remote-1") "2024-01-01" None None
          job_with_segment_without_pages)).
Proof.
  apply get_job_details_without_answer.
  - apply lookup_singleton_eq.
  - right; right. by exists "remote-1".
Defined.

(** X14.  A call stores a result only when the remote job is completed and has a
    result, and it never erases a stored result. *)
Theorem get_job_details_result
    (fetch : string → string → option RemoteJob) (api_key : string)
    (jobs_storage : gmap string StoredJob) (job_id : string)
    (stored stored' : StoredJob) :
  jobs_storage !! job_id = Some stored →
  (get_job_details fetch api_key jobs_storage job_id).1 !! job_id
  = Some stored' →
  (result (split_keys stored') = result (split_keys stored)
   ∨ ∃ id llamaindex_job r,
       llamaindex_job_id stored = Some id
       ∧ fetch api_key id = Some llamaindex_job
       ∧ remote_status llamaindex_job = Value "completed"
       ∧ remote_result llamaindex_job = Some r
       ∧ result (split_keys stored') = Some r
       ∧ status (split_keys stored') = Some "completed")
  ∧ (is_Some (result (split_keys stored)) →
     is_Some (result (split_keys stored'))).
Proof.
  intros Hjob. unfold get_job_details. rewrite Hjob. cbn.
  rewrite lookup_insert_eq. intros [= <-].
  unfold fetch_latest.
  destruct (llamaindex_job_id stored) as [[|c s]|] eqn:Hid;
    [by split; [left|]| |by split; [left|]].
  destruct (fetch api_key (String c s)) as [llamaindex_job|] eqn:Hfetch;
    [|by split; [left|]].
  unfold refresh_job.
  destruct (bool_decide (remote_status llamaindex_job = Value "completed")
            && bool_decide (is_Some (remote_result llamaindex_job))) eqn:Hc;
    cbn; [|by split; [left|]].
  apply andb_true_iff in Hc as [Hstatus Hresult].
  apply bool_decide_eq_true in Hstatus, Hresult.
  destruct Hresult as [r Hr]. split; [|by rewrite Hr].
  right. exists (String c s), llamaindex_job, r.
  split_and!; [done..|]. by rewrite Hstatus.
Qed.

Lemma get_job_details_result_witness :
  let r := {| segments := Some [mkSegment (Some "high") (Some (PagesList [3]))] |} in
  let stored :=
    mkStoredJob "job-1" (Some "remote-1") "2024-01-01" None None
      (mkJob (Some "pending") None (Some OneBytePages.ten_pages)
         (Value "scan.pdf")) in
  let stored' :=
    mkStoredJob "job-1" (Some "remote-1") "2024-01-01" None None
      (mkJob (Some "completed") (Some r) (Some OneBytePages.ten_pages)
         (Value "scan.pdf")) in
  let fetch := λ _ _ : string, Some (mkRemoteJob (Value "completed") (Some r) Absent) in
  (result (split_keys stored') = result (split_keys stored)
   ∨ ∃ id llamaindex_job r',
       llamaindex_job_id stored = Some id
       ∧ fetch "key" id = Some llamaindex_job
       ∧ remote_status llamaindex_job = Value "completed"
       ∧ remote_result llamaindex_job = Some r'
       ∧ result (split_keys stored') = Some r'
       ∧ status (split_keys stored') = Some "completed")
  ∧ (is_Some (result (split_keys stored)) →
     is_Some (result (split_keys stored'))).
Proof.
  intros r stored stored' fetch.
  apply (get_job_details_result fetch "key" {[ "job-1" := stored ]} "job-1"
           stored stored').
  - apply lookup_singleton_eq.
  - vm_compute. reflexivity.
Defined.

(** X15.  Asking twice for the same job while the remote service gives the same
    answers leaves the storage and the reply of the first call. *)
Theorem get_job_details_twice
    (fetch : string → string → option RemoteJob) (api_key : string)
    (jobs_storage : gmap string StoredJob) (job_id : string) :
  get_job_details fetch api_key
    (get_job_details fetch api_key jobs_storage job_id).1 job_id
  = get_job_details fetch api_key jobs_storage job_id.
Proof.
  unfold get_job_details.
  destruct (jobs_storage !! job_id) as [stored|] eqn:Hjob; cbn.
  - rewrite lookup_insert_eq, fetch_latest_idemp. by rewrite insert_insert_eq.
  - by rewrite Hjob.
Qed.

(** ** From the creation of a job to its archive *)

Section lifecycle.
Context {Page : Type}.
Variable PdfReader : bytes → Exception + list Page.
Variable PdfWriter_write : list Page → bytes.

Lemma lookup_split_storage (jobs_storage : gmap string StoredJob) job_id :
  split_storage jobs_storage !! job_id
  = split_keys <$> jobs_storage !! job_id.
Proof. unfold split_storage. apply lookup_fmap. Qed.

Lemma get_job_details_lookup fetch api_key
    (jobs_storage : gmap string StoredJob) job_id stored :
  jobs_storage !! job_id = Some stored →
  (get_job_details fetch api_key jobs_storage job_id).1 !! job_id
  = Some (fetch_latest fetch api_key stored).
Proof.
  intros Hjob. unfold get_job_details. rewrite Hjob. cbn [fst].
  apply lookup_insert_eq.
Qed.

Lemma fetch_latest_answer fetch api_key stored id llamaindex_job :
  llamaindex_job_id stored = Some id → id ≠ "" →
  fetch api_key id = Some llamaindex_job →
  fetch_latest fetch api_key stored = refresh_job llamaindex_job stored.
Proof.
  intros Hid Hne Hfetch. unfold fetch_latest. rewrite Hid.
  destruct id as [|c s]; [done|]. by rewrite Hfetch.
Qed.

Lemma refresh_job_completed llamaindex_job stored r :
  remote_status llamaindex_job = Value "completed" →
  remote_result llamaindex_job = Some r →
  split_keys (refresh_job llamaindex_job stored)
  = {| status := Some "completed";
       result := Some r;
       original_file_content := original_file_content (split_keys stored);
       job_filename := job_filename (split_keys stored) |}.
Proof.
  intros Hstatus Hresult. unfold refresh_job. rewrite Hstatus, Hresult.
  rewrite bool_decide_eq_true_2 by done.
  by rewrite bool_decide_eq_true_2 by eauto.
Qed.

Lemma refresh_job_failed llamaindex_job stored :
  remote_status llamaindex_job = Value "failed" →
  status (split_keys (refresh_job llamaindex_job stored)) = Some "failed"
  ∧ result (split_keys (refresh_job llamaindex_job stored))
    = result (split_keys stored)
  ∧ error_message (refresh_job llamaindex_job stored)
    = get_default (remote_error_message llamaindex_job) (Some "Job failed")
  ∧ job_id_key (refresh_job llamaindex_job stored) = job_id_key stored
  ∧ created_at (refresh_job llamaindex_job stored) = created_at stored.
Proof.
  intros Hstatus. unfold refresh_job. rewrite Hstatus.
  rewrite (bool_decide_eq_false_2 (Value "failed" = Value "completed"))
    by discriminate.
  cbn. by rewrite bool_decide_eq_true_2 by done.
Qed.

(** The file and its name survive any sequence of calls of
    [get_job_details]. *)
Lemma poll_all_frame calls (jobs_storage : gmap string StoredJob) job_id
    stored :
  jobs_storage !! job_id = Some stored →
  ∃ stored',
    poll_all calls jobs_storage !! job_id = Some stored'
    ∧ original_file_content (split_keys stored')
      = original_file_content (split_keys stored)
    ∧ job_filename (split_keys stored') = job_filename (split_keys stored).
Proof.
  unfold poll_all. revert jobs_storage stored.
  induction calls as [|[[fetch api_key] asked] calls IH];
    intros jobs_storage stored Hstored; [by exists stored|].
  cbn [foldl fst snd].
  destruct (get_job_details_changes fetch api_key jobs_storage asked job_id
              stored Hstored)
    as (stored1 & Hlookup & _ & _ & _ & _ & Hfile & Hname & _).
  destruct (IH _ _ Hlookup) as (stored' & Hlookup' & Hfile' & Hname').
  exists stored'. split_and!; [done|congruence..].
Qed.

(** X16.  A job that has just been stored by [create_job] cannot be split: it has
    no result yet, whatever status the remote service has reported, and the
    endpoint answers 400. *)
Theorem fresh_job_cannot_be_split (jobs_storage : gmap string StoredJob)
    (job_id now : string) (file : option UploadFile)
    (file_id_from_upload : string) (split_job : SplitJob) :
  ∃ e,
    split_pdf_by_confidence PdfReader PdfWriter_write
      (split_storage
         (store_job jobs_storage job_id now file file_id_from_upload
            split_job))
      job_id
    = inl e
    ∧ status_code e = 400
    ∧ (split_job_status split_job = Value "completed" →
       e = result_not_available).
Proof.
  unfold split_pdf_by_confidence, store_job.
  rewrite lookup_split_storage, lookup_insert_eq. cbn.
  case_bool_decide as Hstatus.
  - eexists. split_and!; [done..|].
    intros Hcompleted. rewrite Hcompleted in Hstatus. by destruct Hstatus.
  - by eexists.
Qed.

(** X17.  A job created without an uploaded file, or with an empty one, can never
    be split: after any calls of [get_job_details], whatever the remote
    service answers, the endpoint answers 400 for it. *)
Theorem job_without_file_is_never_split (jobs_storage : gmap string StoredJob)
    (job_id now : string) (file : option UploadFile)
    (file_id_from_upload : string) (split_job : SplitJob)
    (calls : list ((string → string → option RemoteJob) * string * string)) :
  (∀ f, file = Some f → upload_content f = []) →
  ∃ e,
    split_pdf_by_confidence PdfReader PdfWriter_write
      (split_storage
         (poll_all calls
            (store_job jobs_storage job_id now file file_id_from_upload
               split_job)))
      job_id
    = inl e
    ∧ status_code e = 400.
Proof.
  intros Hfile.
  edestruct (poll_all_frame calls
               (store_job jobs_storage job_id now file file_id_from_upload
                  split_job) job_id)
    as (stored' & Hlookup & Hcontent & _).
  { unfold store_job. apply lookup_insert_eq. }
  cbn in Hcontent.
  unfold split_pdf_by_confidence.
  rewrite lookup_split_storage, Hlookup. cbn.
  case_bool_decide; [by eexists|].
  destruct (result (split_keys stored')) as [[[segs|]]|]; [|by eexists..].
  rewrite Hcontent.
  destruct file as [f|]; cbn; [|by eexists].
  rewrite (Hfile f eq_refl). by eexists.
Qed.

(** X18.  The three endpoints in a row: a job created with a non-empty file, then
    asked for once the remote job is completed with segments, is split into
    the archive of those segments, of the uploaded bytes and of the uploaded
    file name. *)
Theorem create_poll_split (jobs_storage : gmap string StoredJob)
    (job_id now : string) (f : UploadFile) (file_id_from_upload : string)
    (split_job : SplitJob) (fetch : string → string → option RemoteJob)
    (api_key id : string) (llamaindex_job : RemoteJob)
    (segs : list Segment) :
  upload_content f ≠ [] →
  split_job_id split_job = Some id →
  id ≠ "" →
  fetch api_key id = Some llamaindex_job →
  remote_status llamaindex_job = Value "completed" →
  remote_result llamaindex_job = Some {| segments := Some segs |} →
  split_pdf_by_confidence PdfReader PdfWriter_write
    (split_storage
       (get_job_details fetch api_key
          (store_job jobs_storage job_id now (Some f) file_id_from_upload
             split_job)
          job_id).1)
    job_id
  = split_segments PdfReader PdfWriter_write segs (upload_content f)
      (match upload_filename f with
       | Some s => Value s
       | None => PyNone
       end).
Proof.
  intros Hcontent Hid Hne Hfetch Hstatus Hresult.
  unfold split_pdf_by_confidence.
  rewrite lookup_split_storage.
  erewrite get_job_details_lookup by (unfold store_job; apply lookup_insert_eq).
  erewrite fetch_latest_answer by done.
  cbn [fmap option_fmap option_map].
  erewrite refresh_job_completed by done. cbn.
  rewrite bool_decide_eq_false_2 by naive_solver.
  by destruct (upload_content f).
Qed.

(** X19.  A failed remote job: the call reports the status ["failed"] with the
    remote error message, ["Job failed"] when the remote job has none, and
    from then on the job is refused by the split endpoint as not
    completed. *)
Theorem failed_job_is_reported (jobs_storage : gmap string StoredJob)
    (job_id : string) (stored : StoredJob)
    (fetch : string → string → option RemoteJob) (api_key id : string)
    (llamaindex_job : RemoteJob) :
  jobs_storage !! job_id = Some stored →
  llamaindex_job_id stored = Some id →
  id ≠ "" →
  fetch api_key id = Some llamaindex_job →
  remote_status llamaindex_job = Value "failed" →
  (get_job_details fetch api_key jobs_storage job_id).2
  = inr {| details_job_id := job_id_key stored;
           details_status := "failed";
           details_created_at := created_at stored;
           details_result := result (split_keys stored);
           details_error_message :=
             get_default (remote_error_message llamaindex_job)
               (Some "Job failed") |}
  ∧ split_pdf_by_confidence PdfReader PdfWriter_write
      (split_storage (get_job_details fetch api_key jobs_storage job_id).1)
      job_id
    = inl (mkHTTPException 400
             "Job is not completed. Current status: failed").
Proof.
  intros Hjob Hid Hne Hfetch Hstatus.
  destruct (refresh_job_failed llamaindex_job stored Hstatus)
    as (Hfailed & Hres & Herr & Hkey & Hcreated).
  split.
  - unfold get_job_details. rewrite Hjob. cbn [snd].
    erewrite fetch_latest_answer by done.
    unfold job_details. rewrite Hfailed. by rewrite Hres, Herr, Hkey, Hcreated.
  - unfold split_pdf_by_confidence.
    rewrite lookup_split_storage.
    erewrite get_job_details_lookup by done.
    erewrite fetch_latest_answer by done.
    cbn [fmap option_fmap option_map]. rewrite Hfailed.
    by rewrite bool_decide_eq_true_2 by discriminate.
Qed.

End lifecycle.

Lemma fresh_job_cannot_be_split_witness :
  ∃ e,
    split_pdf_by_confidence OneBytePages.PdfReader OneBytePages.PdfWriter_write
      (split_storage
         (store_job ∅ "job-1" "2024-01-01"
            (Some (mkUploadFile (Some "scan.pdf") OneBytePages.ten_pages))
            "123e4567-e89b-12d3-a456-426614174000"
            (mkSplitJob (Some "remote-1") (Value "completed"))))
      "job-1"
    = inl e
    ∧ e = result_not_available.
Proof.
  destruct (fresh_job_cannot_be_split OneBytePages.PdfReader
              OneBytePages.PdfWriter_write ∅ "job-1" "2024-01-01"
              (Some (mkUploadFile (Some "scan.pdf") OneBytePages.ten_pages))
              "123e4567-e89b-12d3-a456-426614174000"
              (mkSplitJob (Some "remote-1") (Value "completed")))
    as (e & He & _ & Hcompleted).
  exists e. split; [exact He|]. apply Hcompleted. reflexivity.
Defined.

Lemma job_without_file_is_never_split_witness :
  ∃ e,
    split_pdf_by_confidence OneBytePages.PdfReader OneBytePages.PdfWriter_write
      (split_storage
         (poll_all
            [(λ _ _, Some (mkRemoteJob (Value "completed")
                             (Some {| segments :=
                                        Some [mkSegment (Some "high")
                                                (Some (PagesList [3]))] |})
                             Absent),
              "key", "job-1")]
            (store_job ∅ "job-1" "2024-01-01" None
               "123e4567-e89b-12d3-a456-426614174000"
               (mkSplitJob (Some "remote-1") (Value "pending")))))
      "job-1"
    = inl e
    ∧ status_code e = 400.
Proof.
  apply job_without_file_is_never_split. intros f Hf. discriminate Hf.
Defined.

Lemma create_poll_split_witness :
  split_pdf_by_confidence OneBytePages.PdfReader OneBytePages.PdfWriter_write
    (split_storage
       (get_job_details
          (λ _ _, Some (mkRemoteJob (Value "completed")
                          (Some {| segments :=
                                     Some [mkSegment (Some "high")
                                             (Some (PagesList [3]))] |})
                          Absent))
          "key"
          (store_job ∅ "job-1" "2024-01-01"
             (Some (mkUploadFile (Some "scan.pdf") OneBytePages.ten_pages))
             "123e4567-e89b-12d3-a456-426614174000"
             (mkSplitJob (Some "remote-1") Absent))
          "job-1").1)
    "job-1"
  = split_segments OneBytePages.PdfReader OneBytePages.PdfWriter_write
      [mkSegment (Some "high") (Some (PagesList [3]))]
      OneBytePages.ten_pages (Value "scan.pdf").
Proof.
  apply (create_poll_split OneBytePages.PdfReader
           OneBytePages.PdfWriter_write ∅ "job-1" "2024-01-01"
           (mkUploadFile (Some "scan.pdf") OneBytePages.ten_pages)
           "123e4567-e89b-12d3-a456-426614174000"
           (mkSplitJob (Some "remote-1") Absent) _ "key" "remote-1"
           (mkRemoteJob (Value "completed")
              (Some {| segments :=
                         Some [mkSegment (Some "high")
                                 (Some (PagesList [3]))] |})
              Absent));
    (reflexivity || discriminate).
Defined.

Lemma failed_job_is_reported_witness :
  let stored :=
    mkStoredJob "job-1" (Some "remote-1") "2024-01-01" None None
      (mkJob (Some "pending") None (Some OneBytePages.ten_pages)
         (Value "scan.pdf")) in
  let fetch := λ _ _ : string, Some (mkRemoteJob (Value "failed") None Absent) in
  (get_job_details fetch "key" {[ "job-1" := stored ]} "job-1").2
  = inr {| details_job_id := "job-1";
           details_status := "failed";
           details_created_at := "2024-01-01";
           details_result := None;
           details_error_message := Some "Job failed" |}
  ∧ split_pdf_by_confidence OneBytePages.PdfReader OneBytePages.PdfWriter_write
      (split_storage
         (get_job_details fetch "key" {[ "job-1" := stored ]} "job-1").1)
      "job-1"
    = inl (mkHTTPException 400
             "Job is not completed. Current status: failed").
Proof.
  intros stored fetch.
  apply (failed_job_is_reported OneBytePages.PdfReader
           OneBytePages.PdfWriter_write {[ "job-1" := stored ]} "job-1"
           stored fetch "key" "remote-1"
           (mkRemoteJob (Value "failed") None Absent)).
  - apply lookup_singleton_eq.
  - reflexivity.
  - discriminate.
  - reflexivity.
  - reflexivity.
Defined.
